(** * gitstr: credential resolution and interactive prompts (helpers.go)

    A shallow embedding of the credential-resolution part of
    [helpers.go]: the prompt engine ([_ask], [ask], [askPassword]), the
    yes/no helper ([confirm]), the decryption retry loop
    ([promptDecrypt]) and the resolver ([gatherSecretKeyOrBunker]),
    together with the properties the specification states about them.

    Strings are byte strings ([String.string]), the UTF-8 bytes a Go
    string holds; Go errors are values of
    the inductive type [error]; the side effects of the code (terminal
    reads, calls of the [git] program, the remote-signer connection, the
    decrypt primitive) are threaded through an explicit [World] that also
    records every external call in a trace. *)

From Stdlib Require Import ZArith Ascii String List Bool Lia.
From stdpp Require Import base option list gmap strings pretty.

Local Open Scope string_scope.

(** ** Go strings *)

Module GoStrings.

(** [s == ""]. *)
Definition isEmpty (s : string) : bool :=
  match s with EmptyString => true | _ => false end.

(** *** White space

    [strings.TrimSpace] drops the runes [unicode.IsSpace] accepts from
    both ends of the string.  A string is its UTF-8 bytes, so white
    space is given here by its encodings: the one-byte runes of the
    table [asciiSpace] (tab, line feed, vertical tab, form feed,
    carriage return, space), the two-byte U+0085 and U+00A0, and the
    three-byte U+1680, U+2000 to U+200A, U+2028, U+2029, U+202F, U+205F
    and U+3000.  Bytes that decode to no rune are not white space. *)
Definition asciiSpace (c : ascii) : bool :=
  let n := nat_of_ascii c in
  ((9 <=? n)%nat && (n <=? 13)%nat) || (n =? 32)%nat.

(** U+0085 and U+00A0: the bytes 194, then 133 or 160. *)
Definition isSpace2 (c1 c2 : ascii) : bool :=
  let '(n1, n2) := (nat_of_ascii c1, nat_of_ascii c2) in
  (n1 =? 194)%nat && ((n2 =? 133)%nat || (n2 =? 160)%nat).

(** U+1680: 225, 154, 128.  U+2000 to U+200A, U+2028, U+2029 and
    U+202F: 226, 128, then 128 to 138, 168, 169 or 175.  U+205F: 226,
    129, 159.  U+3000: 227, 128, 128. *)
Definition isSpace3 (c1 c2 c3 : ascii) : bool :=
  let '(n1, n2, n3) := (nat_of_ascii c1, nat_of_ascii c2, nat_of_ascii c3) in
  ((n1 =? 225)%nat && (n2 =? 154)%nat && (n3 =? 128)%nat)
  || ((n1 =? 226)%nat && (n2 =? 128)%nat
      && (((128 <=? n3)%nat && (n3 <=? 138)%nat)
          || (n3 =? 168)%nat || (n3 =? 169)%nat || (n3 =? 175)%nat))
  || ((n1 =? 226)%nat && (n2 =? 129)%nat && (n3 =? 159)%nat)
  || ((n1 =? 227)%nat && (n2 =? 128)%nat && (n3 =? 128)%nat).

(** The rest of [s] after the white-space rune it starts with, if it
    starts with one. *)
Definition spaceRune (s : string) : option string :=
  match s with
  | EmptyString => None
  | String c1 r1 =>
      if asciiSpace c1 then Some r1
      else match r1 with
           | EmptyString => None
           | String c2 r2 =>
               if isSpace2 c1 c2 then Some r2
               else match r2 with
                    | EmptyString => None
                    | String c3 r3 => if isSpace3 c1 c2 c3 then Some r3 else None
                    end
           end
  end.

(** The bytes an encoding of white space can start with; its other
    bytes are none of these. *)
Definition leadByte (c : ascii) : Prop :=
  let n := nat_of_ascii c in n <= 32 \/ n = 194 \/ n = 225 \/ n = 226 \/ n = 227.

(** [strings.TrimLeftFunc(s, unicode.IsSpace)]: runes are decoded from
    the start and dropped while they are white space. *)
Fixpoint trimLeft (s : string) : string :=
  match s with
  | EmptyString => EmptyString
  | String c1 r1 =>
      if asciiSpace c1 then trimLeft r1
      else match r1 with
           | EmptyString => s
           | String c2 r2 =>
               if isSpace2 c1 c2 then trimLeft r2
               else match r2 with
                    | EmptyString => s
                    | String c3 r3 => if isSpace3 c1 c2 c3 then trimLeft r3 else s
                    end
           end
  end.

(** [strings.TrimRightFunc(s, unicode.IsSpace)]: runes are decoded from
    the end and dropped while they are white space.  What is dropped is
    the longest end of [s] that consists of white-space runes, that is,
    the longest one that [trimLeft] consumes whole.  That this is the
    loop from the end is proved below: a white-space rune that ends the
    string is dropped ([trimRight_last]) and a string that none ends is
    left as it is ([trimRight_stop]). *)
Fixpoint trimRight (s : string) : string :=
  match s with
  | EmptyString => EmptyString
  | String c s' =>
      if isEmpty (trimLeft s) then EmptyString else String c (trimRight s')
  end.

(** [strings.TrimSpace]. *)
Definition TrimSpace (s : string) : string := trimRight (trimLeft s).

(** *** Letter case

    [strings.ToLower] maps every rune through the case tables of the
    Unicode version of the Go toolchain, which are not part of this
    repository: the development takes it as a parameter.  On a string
    of ASCII bytes it is the byte-wise folding below, which is used to
    run the program on ASCII input. *)
Definition lowerByte (c : ascii) : ascii :=
  let n := nat_of_ascii c in
  if (65 <=? n)%nat && (n <=? 90)%nat then ascii_of_nat (n + 32) else c.

Fixpoint lowerASCII (s : string) : string :=
  match s with
  | EmptyString => EmptyString
  | String c s' => String (lowerByte c) (lowerASCII s')
  end.

(** Some byte of [s] is a lower-case (upper-case) ASCII letter. *)
Fixpoint hasLower (s : string) : bool :=
  match s with
  | EmptyString => false
  | String c s' =>
      let n := nat_of_ascii c in ((97 <=? n)%nat && (n <=? 122)%nat) || hasLower s'
  end.

Fixpoint hasUpper (s : string) : bool :=
  match s with
  | EmptyString => false
  | String c s' =>
      let n := nat_of_ascii c in ((65 <=? n)%nat && (n <=? 90)%nat) || hasUpper s'
  end.

(** [strings.HasPrefix s prefix]. *)
Definition HasPrefix (s p : string) : bool := String.prefix p s.

End GoStrings.
Export GoStrings.

(** ** Go errors *)

(** The error values that flow through this code.  [ErrInterrupt] is
    [readline.ErrInterrupt] (the user pressed ^C), [EOF] is [io.EOF]
    (the input is closed), [LibError] an error produced inside an
    external library (named by its kind: the library's own text, with
    the positions and values it reports, is not modelled), [Errorf msg] the result of [fmt.Errorf] on a
    constant message and [Wrapf prefix e] the result of
    [fmt.Errorf(prefix + ": %w", e)]. *)
Inductive error : Type :=
| ErrInterrupt
| EOF
| LibError (msg : string)
| Errorf (msg : string)
| Wrapf (prefix : string) (inner : error).

(** ** The key formats of go-nostr

    [nostr.IsValid32ByteHex] and [nip19.Decode] belong to the go-nostr
    library, not to this repository, and the resolver below takes them
    as parameters.  This module gives them their usual meaning (the
    hexadecimal check of the library, bech32 as in BIP-173 and NIP-19),
    to run the resolver on concrete keys. *)

Module Nostr.

Definition isHexDigit (c : ascii) : bool :=
  let n := nat_of_ascii c in
  ((48 <=? n)%nat && (n <=? 57)%nat) || ((97 <=? n)%nat && (n <=? 102)%nat)
  || ((65 <=? n)%nat && (n <=? 70)%nat).

Fixpoint allHex (s : string) : bool :=
  match s with
  | EmptyString => true
  | String c s' => isHexDigit c && allHex s'
  end.

(** [nostr.IsValid32ByteHex]: already lower case, 64 characters, and a
    hexadecimal string.  A string that passes the last check is made of
    ASCII digits and letters, where [strings.ToLower] is [lowerASCII]. *)
Definition IsValid32ByteHex (thing : string) : bool :=
  String.eqb (lowerASCII thing) thing
  && (String.length thing =? 64)%nat
  && allHex thing.

(** *** bech32 (BIP-173) *)

Definition charset : string := "qpzry9x8gf2tvdw0s3jn54khce6mua7l".

Fixpoint indexFrom (c : ascii) (s : string) (i : Z) : option Z :=
  match s with
  | EmptyString => None
  | String d s' => if Ascii.eqb c d then Some i else indexFrom c s' (i + 1)%Z
  end.

(** Each character of the data part is replaced by its index in
    [charset]; a character outside it is an error. *)
Fixpoint toBytes (data : string) : option (list Z) :=
  match data with
  | EmptyString => Some []
  | String c s' =>
      match indexFrom c charset 0, toBytes s' with
      | Some v, Some vs => Some (v :: vs)
      | _, _ => None
      end
  end.

Definition gen : list Z :=
  [0x3b6a57b2; 0x26508e6d; 0x1ea119fa; 0x3d4233dd; 0x2a1462b3]%Z.

Definition polymodStep (chk v : Z) : Z :=
  let b := Z.shiftr chk 25 in
  let chk := Z.lxor (Z.shiftl (Z.land chk 0x1ffffff) 5) v in
  fst (fold_left
         (fun '(chk, i) g =>
            ((if Z.testbit b i then Z.lxor chk g else chk), (i + 1)%Z))
         gen (chk, 0%Z)).

Definition bech32Polymod (values : list Z) : Z :=
  fold_left polymodStep values 1%Z.

Definition codes (s : string) : list Z :=
  map (fun c => Z.of_nat (nat_of_ascii c)) (list_ascii_of_string s).

Definition bech32HrpExpand (hrp : string) : list Z :=
  map (fun c => Z.shiftr c 5) (codes hrp) ++ [0%Z]
  ++ map (fun c => Z.land c 31) (codes hrp).

(** The checksum constants of bech32 (BIP-173) and bech32m (BIP-350);
    the decoder accepts both. *)
Definition Version0Const : Z := 1.
Definition VersionMConst : Z := 0x2bc830a3.

Definition bech32VerifyChecksum (hrp : string) (data : list Z) : bool :=
  let polymod := bech32Polymod (bech32HrpExpand hrp ++ data) in
  (polymod =? Version0Const)%Z || (polymod =? VersionMConst)%Z.

(** Split at the last ['1']: the part before it and the part after. *)
Fixpoint splitLastOne (s : string) : option (string * string) :=
  match s with
  | EmptyString => None
  | String c s' =>
      match splitLastOne s' with
      | Some (h, d) => Some (String c h, d)
      | None => if Ascii.eqb c "1" then Some (EmptyString, s') else None
      end
  end.

(** The first loop of the decoder: every character is printable ASCII
    and the letters are all of one case.  It gives the first error met,
    or whether there are upper-case letters. *)
Fixpoint caseScan (s : string) (hasLower hasUpper : bool) : error + bool :=
  match s with
  | EmptyString => inr hasUpper
  | String c s' =>
      let n := nat_of_ascii c in
      if (n <? 33)%nat || (126 <? n)%nat
      then inl (LibError "invalid character in string")
      else
        let hasLower := hasLower || ((97 <=? n)%nat && (n <=? 122)%nat) in
        let hasUpper := hasUpper || ((65 <=? n)%nat && (n <=? 90)%nat) in
        if hasLower && hasUpper
        then inl (LibError "string not all lowercase or all uppercase")
        else caseScan s' hasLower hasUpper
  end.

(** [bech32.DecodeNoLimit]: the human-readable part and the 5-bit
    groups of the data part, without the six checksum groups.  The
    string is folded to lower case after its characters were checked
    to be printable ASCII, where [strings.ToLower] is [lowerASCII]. *)
Definition bech32Decode (bech : string) : (string * list Z) + error :=
  if (String.length bech <? 8)%nat then inr (LibError "invalid bech32 string length")
  else
    match caseScan bech false false with
    | inl e => inr e
    | inr upper =>
        let bech := if upper then lowerASCII bech else bech in
        match splitLastOne bech with
        | None => inr (LibError "invalid separator index")
        | Some (hrp, data) =>
            if isEmpty hrp || (String.length data <? 6)%nat
            then inr (LibError "invalid separator index")
            else
              match toBytes data with
              | None => inr (LibError "invalid character not part of charset")
              | Some decoded =>
                  if bech32VerifyChecksum hrp decoded
                  then inl (hrp, firstn (List.length decoded - 6) decoded)
                  else inr (LibError "invalid checksum")
              end
        end
    end.

(** [bech32.ConvertBits(data, 5, 8, false)]: regroup 5-bit groups into
    bytes; the bits left over must be fewer than five and all zero. *)
Fixpoint convertLoop (data : list Z) (acc : Z) (bits : Z) : option (list Z) :=
  match data with
  | [] =>
      if (5 <=? bits)%Z
         || negb (Z.land (Z.shiftl acc (8 - bits)) 0xff =? 0)%Z
      then None else Some []
  | v :: rest =>
      let acc := Z.land (Z.lor (Z.shiftl acc 5) v) 0xfff in
      let bits := (bits + 5)%Z in
      if (8 <=? bits)%Z then
        let bits := (bits - 8)%Z in
        match convertLoop rest acc bits with
        | Some out => Some (Z.land (Z.shiftr acc bits) 0xff :: out)
        | None => None
        end
      else convertLoop rest acc bits
  end.

Definition ConvertBits5to8 (data : list Z) : option (list Z) :=
  convertLoop data 0 0.

Definition hexDigit (n : Z) : ascii :=
  if (n <? 10)%Z then ascii_of_nat (48 + Z.to_nat n)
  else ascii_of_nat (87 + Z.to_nat n).

(** [hex.EncodeToString]. *)
Fixpoint hexEncode (bytes : list Z) : string :=
  match bytes with
  | [] => EmptyString
  | b :: rest =>
      String (hexDigit (Z.shiftr b 4))
        (String (hexDigit (Z.land b 15)) (hexEncode rest))
  end.

(** The value [nip19.Decode] returns has type [any]: a string for the
    tags npub, nsec and note, a pointer structure for the TLV tags
    (whose contents play no role here). *)
Inductive any : Type :=
| AnyString (s : string)
| AnyPointer.

Definition isKeyTag (prefix : string) : bool :=
  String.eqb prefix "npub" || String.eqb prefix "nsec" || String.eqb prefix "note".

Definition isTLVTag (prefix : string) : bool :=
  String.eqb prefix "nprofile" || String.eqb prefix "nevent"
  || String.eqb prefix "naddr" || String.eqb prefix "nrelay".

(** [nip19.Decode]. *)
Definition Decode (bech32string : string) : (string * any) + error :=
  match bech32Decode bech32string with
  | inr e => inr e
  | inl (prefix, bits5) =>
      match ConvertBits5to8 bits5 with
      | None => inr (LibError "failed translating data into 8 bits")
      | Some data =>
          if isKeyTag prefix then
            if (List.length data <? 32)%nat
            then inr (LibError "data is less than 32 bytes")
            else inl (prefix, AnyString (hexEncode (firstn 32 data)))
          else if isTLVTag prefix then inl (prefix, AnyPointer)
          else inr (LibError "unknown tag")
      end
  end.

End Nostr.

(** ** The world around the program

    [config] is the local git configuration of the repository, [tty]
    the outcome of each coming [readline.NewEx] ([None]: the terminal
    opens; an exhausted list means it opens), [stdin] the outcome of
    each coming [rl.Readline] (a submitted line, or the error the read
    fails with; once the list is exhausted the input is closed and the
    read fails with [EOF]) and [rng] the number of keys drawn so far
    from the key generator. *)
Record World : Type := mkWorld {
  config : gmap string string;
  tty : list (option error);
  stdin : list (string + error);
  rng : nat
}.

(** [readline.Config], with the fields the code sets. *)
Record Config : Type := mkConfig {
  Prompt : string;
  InterruptPrompt : string;
  DisableAutoSaveHistory : bool;
  EnableMask : bool;
  MaskRune : option ascii
}.

(** Every call that leaves the program is recorded. *)
Inductive Event : Type :=
| EvGit (args : list string)
| EvGeneratePrivateKey (key : string)
| EvConnectBunker (clientKey url : string)
| EvNewEx (cfg : Config) (err : option error)
| EvWriteStdin (data : string)
| EvReadline (cfg : Config) (res : string + error)
| EvDecrypt (ncryptsec password : string).

(** A computation reads and changes the world and emits events. *)
Definition M (A : Type) : Type := World -> A * World * list Event.

Definition ret {A} (a : A) : M A := fun w => (a, w, []).

Definition bind {A B} (m : M A) (k : A -> M B) : M B :=
  fun w =>
    let '(a, w1, e1) := m w in
    let '(b, w2, e2) := k a w1 in
    (b, w2, (e1 ++ e2)%list).

Declare Scope go_scope.
Delimit Scope go_scope with go.
Notation "x <- m ; k" := (bind m (fun x => k))
  (at level 20, m at level 100, k at level 200, only parsing) : go_scope.
Notation "' pat <- m ; k" := (bind m (fun x => match x with pat => k end))
  (at level 20, pat pattern, m at level 100, k at level 200, only parsing) : go_scope.
Local Open Scope go_scope.

Definition emit (e : Event) : M unit := fun w => (tt, w, [e]).

(** ** [git] *)

Definition gitError : error := Wrapf "git" (LibError "exit status 1").

(** Modelled from the spec: the git program that [exec.Command] runs is
    not part of the repository.  It is the Local Config Store of the
    specification, Get(key) -> (value, found) and Set(key, value),
    reached through git's command line: [git config [--local] key] is
    Get (it prints the value, and fails with no output when there is
    none) and [git config --local key value] is Set (it prints
    nothing).  Any other command fails. *)
Definition gitProgram (args : list string) : M (string * option error) :=
  fun w =>
    match args with
    | ["config"; "--local"; key] | ["config"; key] =>
        match config w !! key with
        | Some v => ((v, None), w, [])
        | None => (("", Some gitError), w, [])
        end
    | ["config"; "--local"; key; value] =>
        (("", None), mkWorld (<[key := value]> (config w)) (tty w) (stdin w) (rng w), [])
    | _ => (("", Some gitError), w, [])
    end.

(** [git(args...)]: the trimmed output of the program and its error. *)
Definition git (args : list string) : M (string * option error) :=
  _ <- emit (EvGit args);
  '(v, err) <- gitProgram args;
  ret (TrimSpace v, err).

(** ** The prompt engine *)

(** [color.YellowString]: the colour codes are presentation only. *)
Definition YellowString (msg : string) : string := msg.

(** The predicate [shouldAskAgain] is a Go closure: besides answering
    it may assign variables of the function that built it.  Those
    variables are the state [S] the predicate transforms. *)
Definition Pred (S : Type) : Type := string -> S -> bool * S.

Definition askConfig (msg : string) : Config :=
  mkConfig (YellowString msg) "^C" true false None.

Definition askPasswordConfig (msg : string) : Config :=
  mkConfig (YellowString msg) "^C" true true (Some "*"%char).

(** The closure of [confirm]; its state is the variable [res]. *)
Definition confirmAnswer : Pred bool :=
  fun answer res =>
    if String.eqb answer "y" || String.eqb answer "yes" then (false, true)
    else if String.eqb answer "n" || String.eqb answer "no" then (false, false)
    else (true, res).

(** ** The command line

    The flags the resolver reads: [c.String("connect")],
    [c.String("sec")], [c.IsSet("sec")] and [c.Bool("store-sec")]. *)
Record Command : Type := mkCommand {
  connect_flag : string;
  sec_flag : string;
  sec_is_set : bool;
  store_sec_flag : bool
}.

Definition secretPrompt : string := "input secret key (hex, nsec or ncryptsec): ".
Definition storePrompt : string := "store the secret key on git config? ".
Definition passwordPrompt : string := "type the password to decrypt your secret key".

(** ** Vocabulary of the properties *)

(** The calls of the decrypt primitive in a trace, oldest first. *)
Fixpoint decryptCalls (evs : list Event) : list (string * string) :=
  match evs with
  | [] => []
  | EvDecrypt n p :: evs' => (n, p) :: decryptCalls evs'
  | _ :: evs' => decryptCalls evs'
  end.

(** The lines read successfully in a trace, oldest first. *)
Fixpoint linesRead (evs : list Event) : list string :=
  match evs with
  | [] => []
  | EvReadline _ (inl line) :: evs' => line :: linesRead evs'
  | _ :: evs' => linesRead evs'
  end.

(** The event of reading the line [l] at the prompt [cfg]. *)
Definition readOf (cfg : Config) (l : string) : Event := EvReadline cfg (inl l).

(** The error of a terminal that did not open or of a read that
    failed. *)
Definition readError (ev : Event) : option error :=
  match ev with
  | EvNewEx _ (Some e) => Some e
  | EvReadline _ (inr e) => Some e
  | _ => None
  end.

(** The terminal was touched. *)
Definition isTerminalEvent (ev : Event) : bool :=
  match ev with
  | EvNewEx _ _ | EvWriteStdin _ | EvReadline _ _ => true
  | _ => false
  end.

Definition isConnect (ev : Event) : bool :=
  match ev with EvConnectBunker _ _ => true | _ => false end.

(** [git] was called on the setting [key], to read or to write it. *)
Definition touchesSetting (key : string) (ev : Event) : bool :=
  match ev with
  | EvGit ("config" :: "--local" :: k :: _) => String.eqb k key
  | _ => false
  end.

(** The stored-secret setting was written. *)
Definition storeCalled (evs : list Event) : Prop :=
  exists v, In (EvGit ["config"; "--local"; "str.secretkey"; v]) evs.

(** The user was asked whether to store the key. *)
Definition askedToStore (evs : list Event) : Prop :=
  exists r, In (EvReadline (askConfig (storePrompt +:+ "(y/n) ")) r) evs.

(** The secret was typed at the interactive prompt. *)
Definition gatheredInteractively (evs : list Event) : Prop :=
  exists line, In (EvReadline (askConfig secretPrompt) (inl line)) evs.

Definition isYes (answer : string) : bool :=
  String.eqb answer "y" || String.eqb answer "yes".

Definition isNo (answer : string) : bool :=
  String.eqb answer "n" || String.eqb answer "no".

Definition isYesNo (answer : string) : bool := isYes answer || isNo answer.

(** An event of the prompt with configuration [cfg]. *)
Definition isPromptOf (cfg : Config) (ev : Event) : Prop :=
  (exists e, ev = EvNewEx cfg e) \/ ev = EvWriteStdin ""
  \/ (exists res, ev = EvReadline cfg res).

(** A prompt that masks what is typed. *)
Definition isMasked (ev : Event) : bool :=
  match ev with
  | EvNewEx cfg _ | EvReadline cfg _ => EnableMask cfg
  | _ => false
  end.

(** The stored secret as [git] prints it (empty when there is none). *)
Definition storedSecret (w : World) : string :=
  match config w !! "str.secretkey" with
  | Some v => TrimSpace v
  | None => ""
  end.

(** The terminal opens at the next [readline.NewEx]. *)
Definition terminalOpens (w : World) : Prop :=
  match tty w with Some _ :: _ => False | _ => True end.

(** No address of a remote signer and no secret are given by flag, and
    none is stored: the resolver will ask for the secret. *)
Definition promptsForSecret (c : Command) (w : World) : Prop :=
  connect_flag c = "" /\ sec_flag c = ""
  /\ (sec_is_set c = true \/ storedSecret w = "")
  /\ terminalOpens w.

Definition withStdin (w : World) (input : list (string + error)) : World :=
  mkWorld (config w) (tty w) input (rng w).

(** ** Concrete worlds, used to evaluate the program *)

Module Example.

(** The key of the NIP-19 test vector. *)
Definition nsec : string :=
  "nsec1vl029mgpspedva04g90vltkh6fvh240zqtv9k0t9af8935ke9laqsnlfe5".
Definition hexkey : string :=
  "67dea2ed018072d675f5415ecfaed7d2597555e202d85b3d65ea4e58d2d92ffa".
(** An encrypted blob; the resolver looks at its prefix only. *)
Definition ncryptsec : string := "ncryptsec1qgg9947rlpvqu76pj5ecreduf9jxhselq2nae2kgh".
Definition bunkerURL : string := "bunker://remote-signer".

(** U+00A0 (no-break space), U+2003 (em space) and U+200B (zero width
    space, which is not white space) in UTF-8. *)
Definition nbsp : string := String "194" (String "160" "").
Definition emSpace : string := String "226" (String "128" (String "131" "")).
Definition zwsp : string := String "226" (String "128" (String "139" "")).

Definition emptyWorld : World := mkWorld ∅ [] [] 0.
Definition typing (input : list (string + error)) : World := mkWorld ∅ [] input 0.

Definition noFlags : Command := mkCommand "" "" false false.

(** A signer that accepts exactly [bunkerURL]; handles are numbers. *)
Definition connect (clientKey url : string) : option nat * option error :=
  if String.eqb url bunkerURL then (Some 1, None)
  else (None, Some (LibError "no bunker reachable")).

Definition keygen (n : nat) : string := "clientkey" +:+ pretty n.

(** A decrypt primitive whose only good passphrase is [Secret]. *)
Definition decrypt (ncryptsec1 password : string) : string + error :=
  if String.eqb password "Secret" then inl hexkey
  else inr (LibError "invalid password").

(** A decrypt primitive whose only good passphrase is [hunter2]. *)
Definition decryptLower (ncryptsec1 password : string) : string + error :=
  if String.eqb password "hunter2" then inl hexkey
  else inr (LibError "invalid password").

End Example.

(** ** The other helpers of [helpers.go] *)

(** [strings.Split(s, sep)] for a separator of one byte, which is how
    the file calls it (" ", "," and ":"): the pieces between the
    separators, one more than there are separators. *)
Fixpoint Split (s : string) (sep : ascii) : list string :=
  match s with
  | EmptyString => [EmptyString]
  | String c s' =>
      if Ascii.eqb c sep then EmptyString :: Split s' sep
      else match Split s' sep with
           | piece :: pieces => String c piece :: pieces
           | [] => [String c EmptyString]
           end
  end.

(** Lines 99-109. *)
Definition getPatchRelays : M (list string) :=
  '(str, _) <- git ["config"; "str.patches-relay"];
  let spl := Split str " " in
  ret (fold_left
         (fun res url => if negb (isEmpty url) then (res ++ [url])%list else res)
         spl []).

(** Lines 111-117. *)
Definition getRepositoryID : M string :=
  '(id, err) <- git ["config"; "--local"; "str.id"];
  match err with
  | Some _ => ret ""
  | None => ret id
  end.

(** Lines 318-329. *)
Definition split (str : string) : list string :=
  fold_left
    (fun res v =>
       fold_left
         (fun res v =>
            let v := TrimSpace v in
            if negb (isEmpty v) then (res ++ [v])%list else res)
         (Split v ",") res)
    (Split str " ") [].

(** *** Slices

    A slice is a window on an array; the array is a list here and a
    window is given by its bounds.  [copy dst src] is what the window
    [dst] holds after Go's [copy(dst, src)]: the first
    [min(len(dst), len(src))] elements come from [src]. *)
Definition copy {V} (dst src : list V) : list V :=
  (firstn (List.length dst) src ++ skipn (List.length src) dst)%list.

(** [copy(slice[i:], src)] seen from the whole array. *)
Definition copyAt {V} (slice : list V) (i : nat) (src : list V) : list V :=
  (firstn i slice ++ copy (skipn i slice) src)%list.

(** Lines 255-267.  [zero] is the zero value of [V], which
    [make([]V, size)] fills the new array with. *)
Definition concatSlices {V} (zero : V) (slices : list (list V)) : list V :=
  let size := fold_left (fun size ss => size + List.length ss) slices 0 in
  let newSlice := repeat zero size in
  fst (fold_left
         (fun '(newSlice, pos) ss =>
            (copyAt newSlice pos ss, pos + List.length ss))
         slices (newSlice, 0)).

(** The loop of [filterSlice] with [n] indices left to visit, from
    [n - 1] down to 0.  [None] is the panic of an index out of range. *)
Fixpoint filterLoop {V} (keep : V -> bool) (n : nat) (slice : list V)
    (keeping : nat) : option (list V * nat) :=
  match n with
  | 0 => Some (slice, keeping)
  | S i =>
      match nth_error slice i with
      | None => None
      | Some v =>
          if keep v then filterLoop keep i slice (S keeping)
          else filterLoop keep i (copyAt slice i (skipn (S i) slice)) keeping
      end
  end.

(** Lines 269-280.  The function works in the array of its argument:
    the result is the returned window [slice[0:keeping]] together with
    the array as the caller's slice now sees it.  [keep] is taken to be
    a function of the element alone. *)
Definition filterSlice {V} (slice : list V) (keep : V -> bool)
    : option (list V * list V) :=
  match filterLoop keep (List.length slice) slice 0 with
  | None => None
  | Some (arr, keeping) =>
      if (keeping <=? List.length arr)%nat then Some (firstn keeping arr, arr)
      else None
  end.

(** *** Printing events *)

(** The fields of [nostr.Event] the file reads. *)
Record nostr_Event : Type := mkEvent {
  ev_ID : string;
  ev_PubKey : string;
  ev_Content : string;
  ev_Tags : list (list string)
}.

(** The line feed of the Go literals. *)
Definition nl : string := String "010"%char EmptyString.

(** How go-nostr finds a tag: [Tag.StartsWith] compares all elements of
    the prefix but the last for equality and the last as a prefix;
    [Tags.GetFirst] returns the first tag that starts with the prefix.
    The functions below take [GetFirst] as a parameter; this is its
    usual meaning, for concrete runs. *)
Module NostrTags.

Fixpoint startsWith (tag prefix : list string) : bool :=
  match prefix, tag with
  | [], _ => false
  | [p], t :: _ => HasPrefix t p
  | p :: prefix', t :: tag' => String.eqb p t && startsWith tag' prefix'
  | _ :: _, [] => false
  end.

Fixpoint GetFirst (tags : list (list string)) (tagPrefix : list string)
    : option (list string) :=
  match tags with
  | [] => None
  | v :: rest => if startsWith v tagPrefix then Some v else GetFirst rest tagPrefix
  end.

End NostrTags.

Section Printing.

(** Library functions: [nostr.IsValidPublicKey], [nip19.EncodePublicKey]
    and [Tags.GetFirst]. *)
Variable IsValidPublicKey : string -> bool.
Variable EncodePublicKey : string -> string * option error.
Variable GetFirst : list (list string) -> list string -> option (list string).

(** Lines 119-125. *)
Definition getRepositoryPublicKey : M string :=
  '(pk, _) <- git ["config"; "str.publickey"];
  if IsValidPublicKey pk then ret pk else ret "".

(** Lines 138-146.  [None] is a panic: the nil pointer [GetFirst]
    returned is dereferenced, or the tag has no element 1. *)
Definition sprintRepository (repo : nostr_Event) : option string :=
  let res := "" in
  let '(npub, _) := EncodePublicKey (ev_PubKey repo) in
  let res := res +:+ (nl +:+ "author: " +:+ npub) in
  match GetFirst (ev_Tags repo) ["d"; ""] with
  | None => None
  | Some tag =>
      match nth_error tag 1 with
      | None => None
      | Some id =>
          let res := res +:+ (nl +:+ "id: " +:+ id) in
          let res := res +:+ nl in
          Some res
      end
  end.

(** Lines 148-166.  [None] is a panic: the tag has no element 1, or
    [target] has no element 2 (or 1). *)
Definition sprintPatch (patch : nostr_Event) : option string :=
  let res := "" in
  let '(npub, _) := EncodePublicKey (ev_PubKey patch) in
  let res := res +:+ (nl +:+ "id: " +:+ ev_ID patch) in
  let res := res +:+ (nl +:+ "author: " +:+ npub) in
  let finish (res : string) : option string :=
    Some (res +:+ (nl +:+ nl +:+ ev_Content patch)) in
  match GetFirst (ev_Tags patch) ["a"; ""] with
  | Some aTag =>
      match nth_error aTag 1 with
      | None => None
      | Some value =>
          let target := Split value ":" in
          match nth_error target 2 with
          | None => None
          | Some targetId =>
              match nth_error target 1 with
              | None => None
              | Some author =>
                  let '(targetNpub, _) := EncodePublicKey author in
                  let res := res +:+ (nl +:+ "target repo: " +:+ targetId) in
                  let res := res +:+ (nl +:+ "target author: " +:+ targetNpub) in
                  finish res
              end
          end
      end
  | None => finish res
  end.

End Printing.

(** *** [edit]

    What [edit] sees of the operating system: the variable [EDITOR],
    the files by name, what [os.CreateTemp] will give (the name of the
    new, empty file or an error) and whether [os.WriteFile] will fail.
    The editor is any program: [sh cmd fs] is what running
    [sh -c cmd] makes of the files [fs], with the error of [cmd.Run]. *)
Record OS : Type := mkOS {
  EDITOR : string;
  files : gmap string string;
  createTemp : string + error;
  writeFails : option error
}.

Definition withFiles (os : OS) (fs : gmap string string) : OS :=
  mkOS (EDITOR os) fs (createTemp os) (writeFails os).

(** Lines 282-316.  The deferred [os.Remove] runs on every return after
    the file was created. *)
Definition edit (sh : string -> gmap string string -> gmap string string * option error)
    (initial : string) (os : OS) : (string * option error) * OS :=
  let editor := "vim" in
  let editor := if negb (isEmpty (EDITOR os)) then EDITOR os else editor in
  match createTemp os with
  | inr err => (("", Some (Wrapf "creating tmpfile" err)), os)
  | inl name =>
      let fs := <[name := ""]> (files os) in
      let deferred (r : string * option error) (fs : gmap string string) :=
        (r, withFiles os (delete name fs)) in
      match writeFails os with
      | Some err =>
          deferred ("", Some (Wrapf ("error writing to tmpfile '" +:+ name +:+ "'") err)) fs
      | None =>
          let fs := <[name := initial]> fs in
          let '(fs, err) := sh (editor +:+ " " +:+ name) fs in
          match err with
          | Some err =>
              deferred ("", Some (Wrapf ("executing '" +:+ editor +:+ " " +:+ name +:+ "'") err)) fs
          | None =>
              match fs !! name with
              | None =>
                  deferred ("", Some (Wrapf ("reading tmpfile '" +:+ name +:+ "'")
                                        (LibError "no such file or directory"))) fs
              | Some b => deferred (b, None) fs
              end
          end
      end
  end.

(** *** Vocabulary for the helpers *)

(** The number of bytes [sep] in [s]. *)
Fixpoint countByte (sep : ascii) (s : string) : nat :=
  match s with
  | EmptyString => 0
  | String c s' => (if Ascii.eqb c sep then 1 else 0) + countByte sep s'
  end.

(** No byte of [s] satisfies [p]. *)
Fixpoint noByte (p : ascii -> bool) (s : string) : bool :=
  match s with
  | EmptyString => true
  | String c s' => negb (p c) && noByte p s'
  end.

(** [strings.Join(words, sep)]. *)
Fixpoint Join (words : list string) (sep : string) : string :=
  match words with
  | [] => EmptyString
  | [w] => w
  | w :: rest => w +:+ sep +:+ Join rest sep
  end.

(** A white-space rune is encoded somewhere in [s]. *)
Fixpoint hasSpace (s : string) : bool :=
  match s with
  | EmptyString => false
  | String c s' =>
      match spaceRune s with Some _ => true | None => hasSpace s' end
  end.

Definition isSeparator (c : ascii) : bool :=
  Ascii.eqb c " " || Ascii.eqb c ",".

(** A word as [split] returns it: not empty, no space and no comma in
    it, no white space around it. *)
Definition isWord (w : string) : Prop :=
  w <> "" /\ noByte isSeparator w = true /\ TrimSpace w = w.

Section Resolver.

(** The library functions the code calls are parameters of the
    development.  [strings.ToLower] is the one of the Go toolchain, whose
    case tables are not part of the repository ([lowerASCII] runs it on
    ASCII input).  The others belong to go-nostr: the remote signer
    ([nip46.ConnectBunker]), the key generator
    ([nostr.GeneratePrivateKey], as the key it gives at each draw), the
    decrypt primitive ([nip49.Decrypt]), the check of a hexadecimal key
    ([nostr.IsValid32ByteHex]) and the bech32 decoder ([nip19.Decode]).
    Module [Nostr] above gives the last two their usual meaning when
    the program is run on concrete input. *)
Variable ToLower : string -> string.
Variable BunkerClient : Type.
Variable ConnectBunker : string -> string -> option BunkerClient * option error.
Variable GeneratePrivateKey : nat -> string.
Variable Decrypt : string -> string -> string + error.
Variable IsValid32ByteHex : string -> bool.
Variable Decode : string -> (string * Nostr.any) + error.

(** *** The prompt engine *)

(** Line 247: [strings.TrimSpace(strings.ToLower(answer))]. *)
Definition normalize (answer : string) : string := TrimSpace (ToLower answer).

(** The [for] loop of [_ask], on the pending [input] of the terminal.
    It returns the answer and error, the closure state, the unread
    input and the reads made. *)
Fixpoint readLoop {S} (cfg : Config) (shouldAskAgain : option (Pred S))
    (input : list (string + error)) (st : S)
    : (string * option error) * S * list (string + error) * list Event :=
  match input with
  | [] => (("", Some EOF), st, [], [EvReadline cfg (inr EOF)])
  | inr err :: rest => (("", Some err), st, rest, [EvReadline cfg (inr err)])
  | inl line :: rest =>
      let answer := normalize line in
      match shouldAskAgain with
      | Some f =>
          let '(again, st') := f answer st in
          if again then
            let '(r, st'', rest', evs) := readLoop cfg shouldAskAgain rest st' in
            (r, st'', rest', EvReadline cfg (inl line) :: evs)
          else ((answer, None), st', rest, [EvReadline cfg (inl line)])
      | None => ((answer, None), st, rest, [EvReadline cfg (inl line)])
      end
  end.

Definition _ask {S} (cfg : Config) (msg : string) (defaultValue : string)
    (shouldAskAgain : option (Pred S)) (st : S) : M ((string * option error) * S) :=
  fun w =>
    match tty w with
    | Some err :: tty' =>
        ((("", Some err), st), mkWorld (config w) tty' (stdin w) (rng w),
         [EvNewEx cfg (Some err)])
    | _ =>
        let '(r, st', rest, evs) := readLoop cfg shouldAskAgain (stdin w) st in
        ((r, st'), mkWorld (config w) (tail (tty w)) rest (rng w),
         EvNewEx cfg None :: EvWriteStdin defaultValue :: evs)
    end.

Definition ask {S} (msg : string) (defaultValue : string)
    (shouldAskAgain : option (Pred S)) (st : S) : M ((string * option error) * S) :=
  _ask (askConfig msg) msg defaultValue shouldAskAgain st.

Definition askPassword {S} (msg : string)
    (shouldAskAgain : option (Pred S)) (st : S) : M ((string * option error) * S) :=
  _ask (askPasswordConfig msg) msg "" shouldAskAgain st.

(** Lines 180-195. *)
Definition confirm (msg : string) : M bool :=
  '(_, res) <- ask (msg +:+ "(y/n) ") "" (Some confirmAnswer) false;
  ret res.

(** *** Vocabulary of the prompts *)

(** The closure answers "again" on each of [lines] in turn, starting
    from state [st]; the result is the state it is left in. *)
Fixpoint rejected {S} (f : Pred S) (lines : list string) (st : S) : option S :=
  match lines with
  | [] => Some st
  | line :: later =>
      let '(again, st') := f (normalize line) st in
      if again then rejected f later st' else None
  end.

(** The user was asked and answered yes. *)
Definition confirmed (evs : list Event) : Prop :=
  exists line,
    In (EvReadline (askConfig (storePrompt +:+ "(y/n) ")) (inl line)) evs
    /\ (normalize line = "y" \/ normalize line = "yes").

(** *** The resolver's closure *)

(** The closure handed to [ask] by the resolver (lines 55-69); its
    state is the variable [askToStore]. *)
Definition secretAnswer : Pred bool :=
  fun answer askToStore =>
    if IsValid32ByteHex answer then (false, true)
    else if HasPrefix answer "nsec1" then (false, true)
    else if HasPrefix answer "ncryptsec1" then (false, askToStore)
    else (true, askToStore).

Definition nostr_GeneratePrivateKey : M string :=
  fun w =>
    let k := GeneratePrivateKey (rng w) in
    (k, mkWorld (config w) (tty w) (stdin w) (S (rng w)), [EvGeneratePrivateKey k]).

Definition nip46_ConnectBunker (clientKey url : string)
    : M (option BunkerClient * option error) :=
  _ <- emit (EvConnectBunker clientKey url);
  ret (ConnectBunker clientKey url).

Definition nip49_Decrypt (ncryptsec1 password : string) : M (string + error) :=
  _ <- emit (EvDecrypt ncryptsec1 password);
  ret (Decrypt ncryptsec1 password).

(** *** [promptDecrypt] *)

(** [fmt.Sprintf(" [%d/3]", i)] when [i > 1]. *)
Definition attemptStr (i : nat) : string :=
  if (1 <? i)%nat then " [" +:+ pretty i +:+ "/3]" else "".

(** The body of the loop runs for each [i] of [attempts]; falling out
    of the loop gives the final error. *)
Fixpoint promptDecryptLoop (attempts : list nat) (ncryptsec1 : string)
    : M (string * option error) :=
  match attempts with
  | [] => ret ("", Some (Errorf "couldn't decrypt private key"))
  | i :: later =>
      '((password, err), _) <-
        askPassword (passwordPrompt +:+ attemptStr i +:+ ": ") (@None (Pred unit)) tt;
      match err with
      | Some e => ret ("", Some e)
      | None =>
          r <- nip49_Decrypt ncryptsec1 password;
          match r with
          | inr _ => promptDecryptLoop later ncryptsec1
          | inl sec => ret (sec, None)
          end
      end
  end.

(** [for i := 1; i < 4; i++]. *)
Definition promptDecrypt (ncryptsec1 : string) : M (string * option error) :=
  promptDecryptLoop (seq 1 3) ncryptsec1.

(** A call of the decrypt primitive that fails. *)
Definition failing (call : string * string) : Prop :=
  exists e, Decrypt (fst call) (snd call) = inr e.

(** [pre] is the trace of [k] attempts that each read a passphrase and
    failed to decrypt [ncryptsec1] with it. *)
Definition failedAttempts (ncryptsec1 : string) (k : nat) (pre : list Event) : Prop :=
  Forall (fun ev => readError ev = None) pre
  /\ List.length (linesRead pre) = k
  /\ List.length (decryptCalls pre) = k
  /\ Forall (fun call => fst call = ncryptsec1 /\ failing call) (decryptCalls pre).

(** The configuration of the prompt of attempt [i] (line 203). *)
Definition attemptConfig (i : nat) : Config :=
  askPasswordConfig (passwordPrompt +:+ attemptStr i +:+ ": ").

(** The trace of consecutive attempts, the first numbered [i], that
    each open the prompt, read one of [lines] and call the decrypt
    primitive on its normal form. *)
Fixpoint attemptsTrace (ncryptsec1 : string) (i : nat) (lines : list string)
    : list Event :=
  match lines with
  | [] => []
  | line :: later =>
      EvNewEx (attemptConfig i) None :: EvWriteStdin ""
      :: readOf (attemptConfig i) line
      :: EvDecrypt ncryptsec1 (normalize line)
      :: attemptsTrace ncryptsec1 (S i) later
  end.

(** How a run of [n] attempts, the first numbered [i], ends once the
    passphrases [failed] have been read and have not decrypted: with
    the plaintext of the next passphrase, with the final error after
    [n] failures, or with the error of the next prompt, which did not
    open or whose read failed. *)
Definition loopEnds (ncryptsec1 : string) (i n : nat) (w : World)
    (failed : list string) (r : string * option error) (w' : World)
    (evs : list Event) : Prop :=
  let next := attemptConfig (i + List.length failed) in
  (exists line sec,
      List.length failed < n
      /\ Decrypt ncryptsec1 (normalize line) = inl sec
      /\ r = (sec, None)
      /\ evs = attemptsTrace ncryptsec1 i (failed ++ [line])
      /\ stdin w = (map inl failed ++ inl line :: stdin w')%list)
  \/ (List.length failed = n
      /\ r = ("", Some (Errorf "couldn't decrypt private key"))
      /\ evs = attemptsTrace ncryptsec1 i failed
      /\ stdin w = (map inl failed ++ stdin w')%list)
  \/ (exists e,
        List.length failed < n /\ r = ("", Some e)
        /\ ((evs = (attemptsTrace ncryptsec1 i failed
                    ++ [EvNewEx next (Some e)])%list
             /\ stdin w = (map inl failed ++ stdin w')%list)
            \/ (evs = (attemptsTrace ncryptsec1 i failed
                       ++ [EvNewEx next None; EvWriteStdin "";
                           EvReadline next (inr e)])%list
                /\ (stdin w = (map inl failed ++ inr e :: stdin w')%list
                    \/ (stdin w = map inl failed /\ stdin w' = [] /\ e = EOF))))).

(** *** [gatherSecretKeyOrBunker] *)

(** What the function does: it returns its four results, or the type
    assertion [hex.(string)] panics. *)
Inductive Outcome : Type :=
| Return (bunker : option BunkerClient) (key : string) (encrypted : bool)
         (err : option error)
| Panic.

(** Lines 35-38: the address of the remote signer.  On line 37 the
    (empty) address is itself the last argument of the call of [git]. *)
Definition gather_bunkerURL (c : Command) : M string :=
  let bunkerURL := connect_flag c in
  if isEmpty bunkerURL then
    '(bunkerURL, _) <- git ["config"; "--local"; "str.bunker"; bunkerURL];
    ret bunkerURL
  else ret bunkerURL.

(** Lines 40-45: the remote path. *)
Definition gather_bunker (bunkerURL : string) : M Outcome :=
  clientKey <- nostr_GeneratePrivateKey;
  '(bunker, err) <- nip46_ConnectBunker clientKey bunkerURL;
  _ <- match bunker with
       | Some _ =>
           _ <- git ["config"; "--local"; "str.bunker"; bunkerURL]; ret tt
       | None => ret tt
       end;
  ret (Return bunker "" false err).

(** Lines 48-73: the secret string and [askToStore], or the error of
    line 71. *)
Definition gather_sec (c : Command) : M ((string * bool) + error) :=
  let sec := sec_flag c in
  sec <- (if isEmpty sec && negb (sec_is_set c) then
            '(sec, _) <- git ["config"; "--local"; "str.secretkey"];
            ret sec
          else ret sec);
  let askToStore := false in
  if isEmpty sec then
    '((sec, _), askToStore) <- ask secretPrompt "" (Some secretAnswer) askToStore;
    if isEmpty sec then ret (inr (Errorf "couldn't gather secret key"))
    else ret (inl (sec, askToStore))
  else ret (inl (sec, askToStore)).

(** Lines 91-96: the decision to store a plain key. *)
Definition gather_store (c : Command) (sec : string) (askToStore : bool)
    : M Outcome :=
  yes <- (if askToStore then confirm storePrompt else ret false);
  _ <- (if yes || store_sec_flag c then
          _ <- git ["config"; "--local"; "str.secretkey"; sec]; ret tt
        else ret tt);
  ret (Return None sec false None).

(** Lines 75-96. *)
Definition gather_key (c : Command) (sec : string) (askToStore : bool)
    : M Outcome :=
  if HasPrefix sec "ncryptsec1" then
    _ <- git ["config"; "--local"; "str.secretkey"; sec];
    ret (Return None sec true None)
  else
    let checked (sec : string) : M Outcome :=
      if negb (IsValid32ByteHex sec)
      then ret (Return None "" false (Some (Errorf "invalid secret key")))
      else gather_store c sec askToStore in
    if HasPrefix sec "nsec1" then
      match Decode sec with
      | inr err => ret (Return None "" false (Some (Wrapf "invalid nsec" err)))
      | inl (_, Nostr.AnyString hex) => checked hex
      | inl (_, Nostr.AnyPointer) => ret Panic
      end
    else checked sec.

Definition gatherSecretKeyOrBunker (c : Command) : M Outcome :=
  bunkerURL <- gather_bunkerURL c;
  if negb (isEmpty bunkerURL) then gather_bunker bunkerURL
  else
    r <- gather_sec c;
    match r with
    | inr err => ret (Return None "" false (Some err))
    | inl (sec, askToStore) => gather_key c sec askToStore
    end.

(** * Properties *)

(** ** Running a computation *)

Ltac run := unfold bind, ret, emit in *; cbn [fst snd] in *.

(** ** Strings *)

Example attemptStr_first_second :
  attemptStr 1 = "" /\ attemptStr 2 = " [2/3]" /\ attemptStr 3 = " [3/3]".
Proof. repeat split; reflexivity. Qed.

Lemma append_length (a b : string) :
  String.length (a +:+ b) = String.length a + String.length b.
Proof.
  induction a as [|c a IH]; [reflexivity|].
  change (S (String.length (a +:+ b)) = S (String.length a + String.length b)).
  f_equal. exact IH.
Qed.

Lemma append_nil_r (a : string) : a +:+ "" = a.
Proof.
  induction a as [|c a IH]; [reflexivity|].
  change (String c (a +:+ "") = String c a). f_equal. exact IH.
Qed.

Lemma append_assoc (a b c : string) : (a +:+ b) +:+ c = a +:+ (b +:+ c).
Proof.
  induction a as [|x a IH]; [reflexivity|].
  change (String x ((a +:+ b) +:+ c) = String x (a +:+ (b +:+ c))).
  f_equal. exact IH.
Qed.

Lemma string_length_ind (P : string -> Prop) :
  (forall s, (forall t, String.length t < String.length s -> P t) -> P s) ->
  forall s, P s.
Proof.
  intros H s. remember (String.length s) as n eqn:Hn.
  revert s Hn. induction n as [n IH] using lt_wf_ind. intros s ->.
  apply H. intros t Ht. exact (IH _ Ht t eq_refl).
Qed.

(** *** White space at the start *)

Lemma trimLeft_unfold (s : string) :
  trimLeft s = match spaceRune s with Some r => trimLeft r | None => s end.
Proof.
  destruct s as [|c1 [|c2 [|c3 r]]]; cbn [trimLeft spaceRune]; try reflexivity.
  - destruct (asciiSpace c1); reflexivity.
  - destruct (asciiSpace c1); [reflexivity|]. destruct (isSpace2 c1 c2); reflexivity.
  - destruct (asciiSpace c1); [reflexivity|]. destruct (isSpace2 c1 c2); [reflexivity|].
    destruct (isSpace3 c1 c2 c3); reflexivity.
Qed.

(** A white-space rune is one, two or three bytes at the start. *)
Lemma spaceRune_split (s r : string) :
  spaceRune s = Some r -> exists p, p <> "" /\ s = p +:+ r.
Proof.
  destruct s as [|c1 [|c2 [|c3 t]]]; cbn [spaceRune]; try discriminate.
  - destruct (asciiSpace c1); [|discriminate]. intros [= <-].
    exists (String c1 ""). split; [discriminate | reflexivity].
  - destruct (asciiSpace c1);
      [intros [= <-]; exists (String c1 ""); split; [discriminate | reflexivity]|].
    destruct (isSpace2 c1 c2); [|discriminate]. intros [= <-].
    exists (String c1 (String c2 "")). split; [discriminate | reflexivity].
  - destruct (asciiSpace c1);
      [intros [= <-]; exists (String c1 ""); split; [discriminate | reflexivity]|].
    destruct (isSpace2 c1 c2);
      [intros [= <-]; exists (String c1 (String c2 "")); split;
       [discriminate | reflexivity]|].
    destruct (isSpace3 c1 c2 c3); [|discriminate]. intros [= <-].
    exists (String c1 (String c2 (String c3 ""))). split; [discriminate | reflexivity].
Qed.

Lemma spaceRune_length (s r : string) :
  spaceRune s = Some r -> String.length r < String.length s.
Proof.
  intros H. destruct (spaceRune_split _ _ H) as (p & Hp & ->).
  rewrite append_length. destruct p; [congruence | cbn; lia].
Qed.

(** What follows a white-space rune does not matter. *)
Lemma spaceRune_app (s r t : string) :
  spaceRune s = Some r -> spaceRune (s +:+ t) = Some (r +:+ t).
Proof.
  destruct s as [|c1 [|c2 [|c3 u]]]; simpl; try discriminate.
  - destruct (asciiSpace c1); [|discriminate]. intros [= <-]. reflexivity.
  - destruct (asciiSpace c1); [intros [= <-]; reflexivity|].
    destruct (isSpace2 c1 c2); [|discriminate]. intros [= <-]. reflexivity.
  - destruct (asciiSpace c1); [intros [= <-]; reflexivity|].
    destruct (isSpace2 c1 c2); [intros [= <-]; reflexivity|].
    destruct (isSpace3 c1 c2 c3); [|discriminate]. intros [= <-]. reflexivity.
Qed.

Lemma trimLeft_suffix (s : string) : exists pre, s = pre +:+ trimLeft s.
Proof.
  induction s as [s IH] using string_length_ind.
  rewrite trimLeft_unfold. destruct (spaceRune s) as [r|] eqn:E.
  - destruct (spaceRune_split _ _ E) as (p & _ & ->).
    destruct (IH r (spaceRune_length _ _ E)) as [pre Hpre].
    exists (p +:+ pre). rewrite append_assoc, <- Hpre. reflexivity.
  - exists "". reflexivity.
Qed.

Lemma trimLeft_length (s : string) : String.length (trimLeft s) <= String.length s.
Proof.
  destruct (trimLeft_suffix s) as [pre H]. rewrite H at 2.
  rewrite append_length. lia.
Qed.

(** [trimLeft] leaves exactly the strings that start with no white
    space. *)
Lemma trimLeft_fixed (s : string) : trimLeft s = s <-> spaceRune s = None.
Proof.
  split; intros H.
  - destruct (spaceRune s) as [r|] eqn:E; [|reflexivity]. exfalso.
    rewrite trimLeft_unfold, E in H.
    pose proof (trimLeft_length r). pose proof (spaceRune_length _ _ E).
    rewrite H in *. lia.
  - rewrite trimLeft_unfold, H. reflexivity.
Qed.

Lemma trimLeft_spaceRune (s : string) : spaceRune (trimLeft s) = None.
Proof.
  induction s as [s IH] using string_length_ind.
  rewrite trimLeft_unfold. destruct (spaceRune s) as [r|] eqn:E.
  - apply IH, (spaceRune_length _ _ E).
  - exact E.
Qed.

(** A piece made of white space only is passed over. *)
Lemma trimLeft_app (a b : string) :
  trimLeft a = "" -> trimLeft (a +:+ b) = trimLeft b.
Proof.
  induction a as [a IH] using string_length_ind. intros H.
  destruct a as [|c a']; [reflexivity|].
  rewrite trimLeft_unfold in H.
  destruct (spaceRune (String c a')) as [r|] eqn:E; [|discriminate].
  rewrite trimLeft_unfold, (spaceRune_app _ _ b E).
  apply IH; [exact (spaceRune_length _ _ E) | exact H].
Qed.

(** *** White space at the end *)

Lemma trimRight_unfold (c : ascii) (s : string) :
  trimRight (String c s)
  = if isEmpty (trimLeft (String c s)) then "" else String c (trimRight s).
Proof. reflexivity. Qed.

(** What [trimRight] drops is made of white space only. *)
Lemma trimRight_prefix (s : string) :
  exists suf, s = trimRight s +:+ suf /\ trimLeft suf = "".
Proof.
  induction s as [|c s IH]; [exists ""; split; reflexivity|].
  rewrite trimRight_unfold.
  destruct (trimLeft (String c s)) as [|d t] eqn:E; cbn [isEmpty].
  - exists (String c s). split; [reflexivity | exact E].
  - destruct IH as (suf & Hs & Hsuf). exists suf. split; [|exact Hsuf].
    change (String c (trimRight s) +:+ suf) with (String c (trimRight s +:+ suf)).
    rewrite <- Hs. reflexivity.
Qed.

Lemma trimRight_fixed (c : ascii) (s : string) :
  trimRight (String c s) = String c s <->
  trimLeft (String c s) <> "" /\ trimRight s = s.
Proof.
  rewrite trimRight_unfold.
  destruct (trimLeft (String c s)) as [|d t]; cbn [isEmpty].
  - split; [discriminate | intros [H _]; congruence].
  - split; [intros [= ->]; split; [discriminate | reflexivity]
           | intros [_ ->]; reflexivity].
Qed.

Lemma trimRight_idem (s : string) : trimRight (trimRight s) = trimRight s.
Proof.
  induction s as [|c s IH]; [reflexivity|].
  rewrite trimRight_unfold.
  destruct (trimLeft (String c s)) as [|d t] eqn:E; cbn [isEmpty]; [reflexivity|].
  apply trimRight_fixed. split; [|exact IH].
  intros H. destruct (trimRight_prefix s) as (suf & Hs & Hsuf).
  assert (Hall : trimLeft (String c s) = "").
  { rewrite Hs at 1.
    change (String c (trimRight s +:+ suf)) with (String c (trimRight s) +:+ suf).
    rewrite (trimLeft_app _ _ H). exact Hsuf. }
  congruence.
Qed.

Lemma trimRight_spaceRune (s : string) :
  spaceRune s = None -> spaceRune (trimRight s) = None.
Proof.
  intros H. destruct (spaceRune (trimRight s)) as [r|] eqn:E; [|reflexivity].
  destruct (trimRight_prefix s) as (suf & Hs & _).
  apply (spaceRune_app _ _ suf) in E. rewrite <- Hs in E. congruence.
Qed.

(** *** From the end, rune by rune *)

Ltac bools H :=
  repeat first [ rewrite andb_true_iff in H | rewrite orb_true_iff in H
               | rewrite Nat.eqb_eq in H | rewrite Nat.leb_le in H ].

Lemma asciiSpace_lead (c : ascii) : asciiSpace c = true -> leadByte c.
Proof. unfold asciiSpace, leadByte. cbv zeta. intros H. bools H. lia. Qed.

Lemma isSpace2_bytes (c1 c2 : ascii) :
  isSpace2 c1 c2 = true -> leadByte c1 /\ ~ leadByte c2.
Proof. unfold isSpace2, leadByte. cbv zeta. intros H. bools H. lia. Qed.

Lemma isSpace3_bytes (c1 c2 c3 : ascii) :
  isSpace3 c1 c2 c3 = true -> leadByte c1 /\ ~ leadByte c2 /\ ~ leadByte c3.
Proof. unfold isSpace3, leadByte. cbv zeta. intros H. bools H. lia. Qed.

Lemma spaceRune_lead (c : ascii) (s r : string) :
  spaceRune (String c s) = Some r -> leadByte c.
Proof.
  cbn [spaceRune]. destruct (asciiSpace c) eqn:E1; [intros _; apply asciiSpace_lead, E1|].
  destruct s as [|c2 s]; [discriminate|].
  destruct (isSpace2 c c2) eqn:E2; [intros _; exact (proj1 (isSpace2_bytes _ _ E2))|].
  destruct s as [|c3 s]; [discriminate|].
  destruct (isSpace3 c c2 c3) eqn:E3;
    [intros _; exact (proj1 (isSpace3_bytes _ _ _ E3)) | discriminate].
Qed.

(** A white-space rune found at the start of [a +:+ p], where [p]
    starts with a white-space rune, lies within [a]. *)
Lemma spaceRune_app_inv (a p r' q : string) :
  a <> "" -> spaceRune p = Some q ->
  spaceRune (a +:+ p) = Some r' ->
  exists r, spaceRune a = Some r /\ r' = r +:+ p.
Proof.
  intros Hne Hp. destruct p as [|d p']; [discriminate|].
  pose proof (spaceRune_lead _ _ _ Hp) as Hd.
  destruct a as [|c1 [|c2 [|c3 t]]]; [congruence| | |]; simpl.
  - destruct (asciiSpace c1); [intros [= <-]; exists ""; auto|].
    destruct (isSpace2 c1 d) eqn:E2;
      [exfalso; exact (proj2 (isSpace2_bytes _ _ E2) Hd)|].
    destruct p' as [|d2 p'']; [discriminate|].
    destruct (isSpace3 c1 d d2) eqn:E3; [|discriminate].
    exfalso. exact (proj1 (proj2 (isSpace3_bytes _ _ _ E3)) Hd).
  - destruct (asciiSpace c1); [intros [= <-]; exists (String c2 ""); auto|].
    destruct (isSpace2 c1 c2); [intros [= <-]; exists ""; auto|].
    destruct (isSpace3 c1 c2 d) eqn:E3; [|discriminate].
    exfalso. exact (proj2 (proj2 (isSpace3_bytes _ _ _ E3)) Hd).
  - destruct (asciiSpace c1); [intros [= <-]; eexists; split; reflexivity|].
    destruct (isSpace2 c1 c2); [intros [= <-]; eexists; split; reflexivity|].
    destruct (isSpace3 c1 c2 c3); [intros [= <-]; eexists; split; reflexivity | discriminate].
Qed.

(** A string followed by a white-space rune is all white space only if
    it is itself. *)
Lemma trimLeft_app_inv (a p : string) :
  spaceRune p = Some "" -> trimLeft (a +:+ p) = "" -> trimLeft a = "".
Proof.
  intros Hp. induction a as [a IH] using string_length_ind. intros H.
  destruct a as [|c a']; [reflexivity|].
  rewrite trimLeft_unfold in H.
  destruct (spaceRune (String c a' +:+ p)) as [r'|] eqn:E.
  - assert (Hne : String c a' <> "") by discriminate.
    destruct (spaceRune_app_inv _ _ _ _ Hne Hp E) as (r & Hr & ->).
    rewrite trimLeft_unfold, Hr. apply IH; [exact (spaceRune_length _ _ Hr) | exact H].
  - discriminate.
Qed.

(** [trimRight] works from the end: a white-space rune that ends the
    string is dropped, and the rest is trimmed. *)
Lemma trimRight_last (s p : string) :
  spaceRune p = Some "" -> trimRight (s +:+ p) = trimRight s.
Proof.
  intros Hp.
  assert (Hall : trimLeft p = "") by (rewrite trimLeft_unfold, Hp; reflexivity).
  induction s as [|c s IH].
  - change ("" +:+ p) with p. destruct p as [|d p']; [reflexivity|].
    rewrite trimRight_unfold, Hall. reflexivity.
  - change (String c s +:+ p) with (String c (s +:+ p)).
    rewrite !trimRight_unfold, IH.
    destruct (trimLeft (String c s)) as [|x t] eqn:E.
    + change (String c (s +:+ p)) with (String c s +:+ p).
      rewrite (trimLeft_app _ _ E), Hall. reflexivity.
    + destruct (trimLeft (String c (s +:+ p))) as [|y u] eqn:E'; [|reflexivity].
      change (String c (s +:+ p)) with (String c s +:+ p) in E'.
      rewrite (trimLeft_app_inv _ _ Hp E') in E. discriminate.
Qed.

(** White space only, and not empty: a white-space rune ends it. *)
Lemma trimLeft_nil_last (s : string) :
  s <> "" -> trimLeft s = "" -> exists a p, s = a +:+ p /\ spaceRune p = Some "".
Proof.
  induction s as [s IH] using string_length_ind. intros Hne H.
  rewrite trimLeft_unfold in H. destruct (spaceRune s) as [r|] eqn:E; [|congruence].
  destruct r as [|d r'].
  - exists "", s. auto.
  - assert (Hne' : String d r' <> "") by discriminate.
    destruct (IH _ (spaceRune_length _ _ E) Hne' H) as (a & p & Hr & Hp).
    destruct (spaceRune_split _ _ E) as (q & _ & Hs).
    exists (q +:+ a), p. split; [|exact Hp].
    rewrite append_assoc, <- Hr. exact Hs.
Qed.

(** ... and a string that no white-space rune ends is left as it is. *)
Lemma trimRight_stop (s : string) :
  (forall a p, s = a +:+ p -> spaceRune p <> Some "") -> trimRight s = s.
Proof.
  induction s as [|c s IH]; intros H; [reflexivity|].
  apply trimRight_fixed. split.
  - intros Hall.
    assert (Hne : String c s <> "") by discriminate.
    destruct (trimLeft_nil_last (String c s) Hne Hall) as (a & p & Hs & Hp).
    exact (H _ _ Hs Hp).
  - apply IH. intros a p -> Hp. exact (H (String c a) p eq_refl Hp).
Qed.

(** *** [strings.TrimSpace] *)

Lemma TrimSpace_idem (s : string) : TrimSpace (TrimSpace s) = TrimSpace s.
Proof.
  unfold TrimSpace.
  assert (H : trimLeft (trimRight (trimLeft s)) = trimRight (trimLeft s)).
  { apply trimLeft_fixed, trimRight_spaceRune, trimLeft_spaceRune. }
  rewrite H. apply trimRight_idem.
Qed.

(** The trimmed string is a piece of the string. *)
Lemma TrimSpace_parts (s : string) :
  exists pre suf, s = pre +:+ TrimSpace s +:+ suf.
Proof.
  unfold TrimSpace. destruct (trimLeft_suffix s) as [pre Hpre].
  destruct (trimRight_prefix (trimLeft s)) as (suf & Hsuf & _).
  exists pre, suf. rewrite <- Hsuf. exact Hpre.
Qed.

Lemma TrimSpace_fixed (s : string) :
  TrimSpace s = s -> trimLeft s = s /\ trimRight s = s.
Proof.
  intros H. unfold TrimSpace in H.
  destruct (trimLeft_suffix s) as [pre Hpre].
  destruct (trimRight_prefix (trimLeft s)) as (suf & Hsuf & _).
  assert (Hlen : String.length pre = 0).
  { pose proof (f_equal String.length Hpre) as H1.
    pose proof (f_equal String.length Hsuf) as H2.
    rewrite append_length in H1, H2. rewrite H in H2. lia. }
  destruct pre; [|discriminate].
  change (s = trimLeft s) in Hpre. rewrite <- Hpre in H. auto.
Qed.

Lemma hasUpper_app (a b : string) :
  hasUpper (a +:+ b) = hasUpper a || hasUpper b.
Proof.
  induction a as [|c a IH]; [reflexivity|].
  change (String c a +:+ b) with (String c (a +:+ b)).
  cbn [hasUpper]. rewrite IH, orb_assoc. reflexivity.
Qed.

(** Trimming adds no capital letter. *)
Lemma hasUpper_TrimSpace (s : string) :
  hasUpper s = false -> hasUpper (TrimSpace s) = false.
Proof.
  destruct (TrimSpace_parts s) as (pre & suf & H). intros Hs.
  rewrite H, !hasUpper_app in Hs.
  apply orb_false_elim in Hs as [_ Hs]. apply orb_false_elim in Hs as [Hs _].
  exact Hs.
Qed.

(** *** Letter case *)



(** What the prompt engine returns has no upper-case ASCII letter left,
    given that [strings.ToLower] leaves none. *)
Lemma hasUpper_normalize :
  (forall s, hasUpper (ToLower s) = false) ->
  forall line, hasUpper (normalize line) = false.
Proof.
  intros Hlower line. unfold normalize. apply hasUpper_TrimSpace, Hlower.
Qed.

(** ** The read loop *)

Section ReadLoop.

Context {S : Type} (cfg : Config).

(** How the loop of [_ask] ends: on the first line the closure does not
    reject, on the first failing read, or on the closed input. *)
Lemma readLoop_spec (f : Pred S) (input : list (string + error)) :
  forall st r st' rest evs,
    readLoop cfg (Some f) input st = (r, st', rest, evs) ->
    exists skipped st0,
      rejected f skipped st = Some st0 /\
      ((exists line,
           input = (map inl skipped ++ inl line :: rest)%list
           /\ r = (normalize line, None)
           /\ f (normalize line) st0 = (false, st')
           /\ evs = (map (readOf cfg) skipped ++ [readOf cfg line])%list)
       \/ (exists e,
             (input = (map inl skipped ++ inr e :: rest)%list
              \/ (input = map inl skipped /\ rest = [] /\ e = EOF))
             /\ r = ("", Some e) /\ st' = st0
             /\ evs = (map (readOf cfg) skipped ++ [EvReadline cfg (inr e)])%list)).
Proof.
  induction input as [|[line|e] input IH]; intros st r st' rest evs H.
  - cbn in H. inversion H; subst. exists [], st'. split; [reflexivity|].
    right. exists EOF. auto.
  - cbn [readLoop] in H. destruct (f (normalize line) st) as [again st1] eqn:Hf.
    destruct again.
    + destruct (readLoop cfg (Some f) input st1) as [[[r1 st2] rest1] evs1] eqn:Hl.
      inversion H; subst. clear H.
      destruct (IH _ _ _ _ _ Hl) as (skipped & st0 & Hrej & Hend).
      exists (line :: skipped), st0. split.
      { cbn [rejected]. rewrite Hf. exact Hrej. }
      destruct Hend as [(l & -> & -> & Hacc & ->) | (e & Hin & -> & -> & ->)].
      * left. exists l. auto.
      * right. exists e. repeat split; auto.
        destruct Hin as [-> | (-> & -> & ->)]; [left | right]; auto.
    + inversion H; subst. exists [], st. split; [reflexivity|].
      left. exists line. auto.
  - cbn in H. inversion H; subst. exists [], st'. split; [reflexivity|].
    right. exists e. auto.
Qed.

(** Without a predicate the loop makes exactly one read. *)
Lemma readLoop_nil_pred (input : list (string + error)) (st : S) :
  readLoop cfg None input st =
  match input with
  | [] => (("", Some EOF), st, [], [EvReadline cfg (inr EOF)])
  | inr e :: rest => (("", Some e), st, rest, [EvReadline cfg (inr e)])
  | inl line :: rest => ((normalize line, None), st, rest, [readOf cfg line])
  end.
Proof. destruct input as [|[line|e] rest]; reflexivity. Qed.

(** Whatever the predicate, an answer that is returned is a submitted
    line in normal form. *)
Lemma readLoop_answer (p : option (Pred S)) (input : list (string + error)) :
  forall st a st' rest evs,
    readLoop cfg p input st = ((a, None), st', rest, evs) ->
    exists line, In (inl line) input /\ a = normalize line.
Proof.
  destruct p as [f|].
  - intros st a st' rest evs H.
    destruct (readLoop_spec _ _ _ _ _ _ _ H) as (skipped & st0 & _ & Hend).
    destruct Hend as [(l & -> & Hr & _) | (e & _ & Hr & _)]; [|discriminate].
    inversion Hr; subst. exists l. split; [|reflexivity].
    apply in_or_app. right. left. reflexivity.
  - intros st a st' rest evs H. rewrite readLoop_nil_pred in H.
    destruct input as [|[line|e] rest0]; inversion H; subst.
    exists line. split; [left|]; reflexivity.
Qed.

(** A failing read ends the loop at once, whatever the predicate. *)
Lemma readLoop_read_error (p : option (Pred S)) (e : error)
    (rest : list (string + error)) (st : S) :
  readLoop cfg p (inr e :: rest) st
  = (("", Some e), st, rest, [EvReadline cfg (inr e)]).
Proof. destruct p; reflexivity. Qed.

End ReadLoop.

(** ** [_ask], [ask] and [askPassword] *)

(** [_ask] either fails to open the terminal, or runs the read loop on
    the pending input. *)
Lemma _ask_spec {S} (cfg : Config) (msg dflt : string) (p : option (Pred S))
    (st : S) (w : World) r st' w' evs :
  _ask cfg msg dflt p st w = ((r, st'), w', evs) ->
  config w' = config w /\ rng w' = rng w /\
  ((exists e, tty w = Some e :: tty w' /\ r = ("", Some e) /\ st' = st
              /\ stdin w' = stdin w /\ evs = [EvNewEx cfg (Some e)])
   \/ (terminalOpens w /\ tty w' = tail (tty w) /\
       exists evs',
         readLoop cfg p (stdin w) st = (r, st', stdin w', evs')
         /\ evs = EvNewEx cfg None :: EvWriteStdin dflt :: evs')).
Proof.
  unfold _ask, terminalOpens. intros H.
  destruct (tty w) as [|[e|] t] eqn:Ht.
  - destruct (readLoop cfg p (stdin w) st) as [[[r1 st1] rest1] evs1] eqn:Hl.
    inversion H; subst; cbn. eauto 10.
  - inversion H; subst; cbn. split; [reflexivity|]. split; [reflexivity|].
    left. exists e. auto.
  - destruct (readLoop cfg p (stdin w) st) as [[[r1 st1] rest1] evs1] eqn:Hl.
    inversion H; subst; cbn. eauto 10.
Qed.

(** The events of a prompt all concern the terminal, and reads carry
    the configuration of the prompt. *)
Lemma readLoop_events {S} (cfg : Config) (p : option (Pred S))
    (input : list (string + error)) :
  forall st r st' rest evs,
    readLoop cfg p input st = (r, st', rest, evs) ->
    forall ev, In ev evs -> exists res, ev = EvReadline cfg res.
Proof.
  induction input as [|[line|e] input IH]; intros st r st' rest evs H ev Hin.
  - cbn in H. inversion H; subst. destruct Hin as [<-|[]]. eauto.
  - cbn [readLoop] in H. destruct p as [f|].
    + destruct (f (normalize line) st) as [again st1]. destruct again.
      * destruct (readLoop cfg (Some f) input st1) as [[[r1 st2] rest1] evs1] eqn:Hl.
        inversion H; subst. destruct Hin as [<-|Hin]; [eauto|].
        eapply IH; eauto.
      * inversion H; subst. destruct Hin as [<-|[]]. eauto.
    + inversion H; subst. destruct Hin as [<-|[]]. eauto.
  - cbn in H. inversion H; subst. destruct Hin as [<-|[]]. eauto.
Qed.

Lemma _ask_events {S} (cfg : Config) (msg dflt : string) (p : option (Pred S))
    (st : S) (w : World) r st' w' evs :
  _ask cfg msg dflt p st w = ((r, st'), w', evs) ->
  forall ev, In ev evs ->
    (exists e, ev = EvNewEx cfg e) \/ ev = EvWriteStdin dflt
    \/ (exists res, ev = EvReadline cfg res).
Proof.
  intros H ev Hin.
  destruct (_ask_spec _ _ _ _ _ _ _ _ _ _ H) as (_ & _ & Hcase).
  destruct Hcase as [(e & _ & _ & _ & _ & ->) | (_ & _ & evs' & Hl & ->)].
  - destruct Hin as [<-|[]]. eauto.
  - destruct Hin as [<-|[<-|Hin]]; [eauto | auto |].
    right. right. eapply readLoop_events; eauto.
Qed.

(** C5. The read loop of the prompt engine ends only on an answer that
    [shouldAskAgain] accepts or on an error.  When [_ask] returns an
    answer without error, the lines read before it were all rejected,
    the answer is the normal form of the last line read and the closure,
    called on it, returned false; a closure whose verdict depends on the
    answer alone is false on the returned answer.  Otherwise the answer
    is empty and the error is the one of the terminal that did not
    open, of the read that failed, or [EOF] of the closed input. *)
Theorem ask_stops_on_accept_or_error {S} (cfg : Config) (msg dflt : string)
    (f : Pred S) (st : S) (w : World) a err st' w' evs :
  _ask cfg msg dflt (Some f) st w = (((a, err), st'), w', evs) ->
  match err with
  | None =>
      exists skipped line st0,
        stdin w = (map inl skipped ++ inl line :: stdin w')%list
        /\ rejected f skipped st = Some st0
        /\ a = normalize line
        /\ f a st0 = (false, st')
        /\ (forall p : string -> bool,
               (forall x s, fst (f x s) = p x) -> p a = false)
  | Some e =>
      a = ""
      /\ (tty w = Some e :: tty w'
          \/ exists skipped,
               rejected f skipped st = Some st'
               /\ (stdin w = (map inl skipped ++ inr e :: stdin w')%list
                   \/ (stdin w = map inl skipped /\ stdin w' = [] /\ e = EOF)))
  end.
Proof.
  intros H.
  destruct (_ask_spec _ _ _ _ _ _ _ _ _ _ H) as (_ & _ & Hcase).
  destruct Hcase as [(e & Ht & Hr & _) | (_ & _ & evs' & Hl & _)].
  - inversion Hr; subst. auto.
  - destruct (readLoop_spec _ _ _ _ _ _ _ _ Hl) as (skipped & st0 & Hrej & Hend).
    destruct Hend as [(l & Hin & Hr & Hacc & _) | (e & Hin & Hr & -> & _)];
      inversion Hr; subst.
    + exists skipped, l, st0. repeat split; auto.
      intros p Hp. rewrite <- (Hp _ st0), Hacc. reflexivity.
    + split; [reflexivity|]. right. exists skipped. split; [exact Hrej|].
      destruct Hin as [Hin | (Hin & Hrest & He)]; auto.
Qed.

(** C4 (as amended). Both variants of the prompt run the same loop and
    both normalize: an answer returned by [ask] or by [askPassword] is
    [strings.TrimSpace(strings.ToLower(line))] for a submitted line, so
    the masked variant folds the case of what was typed exactly as the
    unmasked one does; with a [strings.ToLower] that leaves no ASCII
    capital, the answer holds none. *)
Theorem prompts_fold_case {S} (msg dflt : string) (p : option (Pred S))
    (st : S) (w : World) a st' w' evs :
  ask msg dflt p st w = (((a, None), st'), w', evs)
  \/ askPassword msg p st w = (((a, None), st'), w', evs) ->
  exists line,
    In (inl line) (stdin w)
    /\ a = TrimSpace (ToLower line)
    /\ ((forall s, hasUpper (ToLower s) = false) -> hasUpper a = false).
Proof.
  unfold ask, askPassword. intros [H|H];
    destruct (_ask_spec _ _ _ _ _ _ _ _ _ _ H) as (_ & _ & Hcase);
    (destruct Hcase as [(e & _ & Hr & _) | (_ & _ & evs' & Hl & _)];
     [discriminate|]);
    destruct (readLoop_answer _ _ _ _ _ _ _ _ Hl) as (line & Hin & ->);
    exists line; (split; [exact Hin|]); (split; [reflexivity|]);
    intros Hlower; apply hasUpper_normalize, Hlower.
Qed.

(** Lines the closure rejects are read and dropped. *)
Lemma readLoop_skip {S} (cfg : Config) (f : Pred S) (skipped : list string)
    (input : list (string + error)) :
  forall st st0,
    rejected f skipped st = Some st0 ->
    readLoop cfg (Some f) (map inl skipped ++ input)%list st
    = let '(r, st', rest, evs) := readLoop cfg (Some f) input st0 in
      (r, st', rest, (map (readOf cfg) skipped ++ evs)%list).
Proof.
  induction skipped as [|l skipped IH]; intros st st0 Hrej.
  - cbn in Hrej. inversion Hrej; subst. cbn [map app].
    destruct (readLoop cfg (Some f) input st0) as [[[r st'] rest] evs].
    reflexivity.
  - cbn [rejected] in Hrej. cbn [map app readLoop].
    destruct (f (normalize l) st) as [again st1]. destruct again; [|discriminate].
    rewrite (IH _ _ Hrej).
    destruct (readLoop cfg (Some f) input st0) as [[[r st'] rest] evs].
    reflexivity.
Qed.

(** ** [confirm] *)

Lemma confirmAnswer_unfold (a : string) (res : bool) :
  confirmAnswer a res
  = if isYes a then (false, true)
    else if isNo a then (false, false) else (true, res).
Proof. reflexivity. Qed.

Lemma confirmAnswer_other (a : string) (res : bool) :
  isYesNo a = false -> confirmAnswer a res = (true, res).
Proof.
  rewrite confirmAnswer_unfold. unfold isYesNo. intros H.
  apply orb_false_elim in H as [-> ->]. reflexivity.
Qed.

Lemma confirmAnswer_again (a : string) (res res' : bool) :
  confirmAnswer a res = (true, res') -> isYesNo a = false /\ res' = res.
Proof.
  rewrite confirmAnswer_unfold. unfold isYesNo.
  destruct (isYes a); [discriminate|]. destruct (isNo a); [discriminate|].
  intros H. inversion H. auto.
Qed.

Lemma confirmAnswer_accept (a : string) (res res' : bool) :
  confirmAnswer a res = (false, res') -> isYesNo a = true /\ res' = isYes a.
Proof.
  rewrite confirmAnswer_unfold. unfold isYesNo.
  destruct (isYes a); cbn.
  - intros H. inversion H. auto.
  - destruct (isNo a); intros H; inversion H; auto.
Qed.

Lemma rejected_confirm (skipped : list string) (res st0 : bool) :
  rejected confirmAnswer skipped res = Some st0 <->
  st0 = res /\ Forall (fun l => isYesNo (normalize l) = false) skipped.
Proof.
  revert res. induction skipped as [|l skipped IH]; intros res; cbn [rejected].
  - split; [intros H; inversion H; auto | intros [-> _]; reflexivity].
  - destruct (confirmAnswer (normalize l) res) as [again res1] eqn:E.
    destruct again.
    + apply confirmAnswer_again in E as [Hl ->]. rewrite IH.
      split; intros [-> HF]; (split; [reflexivity|]).
      * constructor; assumption.
      * inversion HF; assumption.
    + apply confirmAnswer_accept in E as [Hl _].
      split; [discriminate|]. intros [_ HF]. inversion HF; congruence.
Qed.

(** What [confirm] does, in full. *)
Lemma confirm_spec (msg : string) (w : World) b w' evs :
  confirm msg w = (b, w', evs) ->
  let cfg := askConfig (msg +:+ "(y/n) ") in
  config w' = config w /\ rng w' = rng w /\
  ((exists e, tty w = Some e :: tty w' /\ b = false /\ stdin w' = stdin w
              /\ evs = [EvNewEx cfg (Some e)])
   \/ (terminalOpens w /\ tty w' = tail (tty w) /\
       exists skipped,
         Forall (fun l => isYesNo (normalize l) = false) skipped /\
         ((exists line,
              stdin w = (map inl skipped ++ inl line :: stdin w')%list
              /\ isYesNo (normalize line) = true
              /\ b = isYes (normalize line)
              /\ evs = (EvNewEx cfg None :: EvWriteStdin ""
                        :: map (readOf cfg) skipped ++ [readOf cfg line])%list)
          \/ (exists e,
                (stdin w = (map inl skipped ++ inr e :: stdin w')%list
                 \/ (stdin w = map inl skipped /\ stdin w' = [] /\ e = EOF))
                /\ b = false
                /\ evs = (EvNewEx cfg None :: EvWriteStdin ""
                          :: map (readOf cfg) skipped
                          ++ [EvReadline cfg (inr e)])%list)))).
Proof.
  unfold confirm, ask. run. intros H. cbv zeta.
  set (cfg := askConfig (msg +:+ "(y/n) ")) in *.
  destruct (_ask cfg (msg +:+ "(y/n) ") "" (Some confirmAnswer) false w)
    as [[[r res] w1] evs1] eqn:Ha.
  inversion H; subst; clear H. rewrite app_nil_r.
  destruct (_ask_spec _ _ _ _ _ _ _ _ _ _ Ha) as (Hc & Hr & Hcase).
  split; [exact Hc|]. split; [exact Hr|].
  destruct Hcase as [(e & Ht & _ & -> & Hs & ->) | (Ho & Ht & evs' & Hl & ->)].
  - left. exists e. auto.
  - right. split; [exact Ho|]. split; [exact Ht|].
    destruct (readLoop_spec _ _ _ _ _ _ _ _ Hl) as (skipped & st0 & Hrej & Hend).
    apply rejected_confirm in Hrej as [-> HF].
    exists skipped. split; [exact HF|].
    destruct Hend as [(l & Hin & _ & Hacc & ->) | (e & Hin & _ & -> & ->)].
    + left. exists l. apply confirmAnswer_accept in Hacc as [Hyn ->]. auto.
    + right. exists e. auto.
Qed.

Lemma _ask_open {S} (cfg : Config) (msg dflt : string) (p : option (Pred S))
    (st : S) (w : World) :
  terminalOpens w ->
  _ask cfg msg dflt p st w
  = let '(r, st', rest, evs) := readLoop cfg p (stdin w) st in
    ((r, st'), mkWorld (config w) (tail (tty w)) rest (rng w),
     EvNewEx cfg None :: EvWriteStdin dflt :: evs).
Proof.
  unfold terminalOpens, _ask. destruct (tty w) as [|[e|] t]; [reflexivity| |reflexivity].
  intros [].
Qed.

Lemma _ask_closed {S} (cfg : Config) (msg dflt : string) (p : option (Pred S))
    (st : S) (w : World) (e : error) (t : list (option error)) :
  tty w = Some e :: t ->
  _ask cfg msg dflt p st w
  = ((("", Some e), st), mkWorld (config w) t (stdin w) (rng w),
     [EvNewEx cfg (Some e)]).
Proof. unfold _ask. intros ->. reflexivity. Qed.

Lemma isNo_not_yes (a : string) : isNo a = true -> isYes a = false.
Proof.
  unfold isNo, isYes. intros H. apply orb_true_iff in H as [H|H];
    apply String.eqb_eq in H; subst; reflexivity.
Qed.

(** [confirm] run forward on a known input: the lines that are neither
    yes nor no are skipped, the next item decides. *)
Lemma confirm_run_answer (msg : string) (w : World) (skipped : list string)
    (line : string) (rest : list (string + error)) :
  terminalOpens w ->
  Forall (fun l => isYesNo (normalize l) = false) skipped ->
  isYesNo (normalize line) = true ->
  stdin w = (map inl skipped ++ inl line :: rest)%list ->
  let cfg := askConfig (msg +:+ "(y/n) ") in
  confirm msg w
  = (isYes (normalize line), mkWorld (config w) (tail (tty w)) rest (rng w),
     (EvNewEx cfg None :: EvWriteStdin ""
      :: map (readOf cfg) skipped ++ [readOf cfg line])%list).
Proof.
  intros Ho HF Hyn Hin. cbv zeta. unfold confirm, ask. run.
  rewrite (_ask_open _ _ _ _ _ _ Ho), Hin.
  rewrite (readLoop_skip _ _ _ _ false false)
    by (apply rejected_confirm; auto).
  cbn [readLoop].
  destruct (confirmAnswer (normalize line) false) as [again res] eqn:E.
  destruct again.
  - apply confirmAnswer_again in E as [E _]. congruence.
  - apply confirmAnswer_accept in E as [_ ->]. rewrite app_nil_r. reflexivity.
Qed.

Lemma confirm_run_error (msg : string) (w : World) (skipped : list string)
    (e : error) (rest : list (string + error)) :
  terminalOpens w ->
  Forall (fun l => isYesNo (normalize l) = false) skipped ->
  stdin w = (map inl skipped ++ inr e :: rest)%list ->
  let cfg := askConfig (msg +:+ "(y/n) ") in
  confirm msg w
  = (false, mkWorld (config w) (tail (tty w)) rest (rng w),
     (EvNewEx cfg None :: EvWriteStdin ""
      :: map (readOf cfg) skipped ++ [EvReadline cfg (inr e)])%list).
Proof.
  intros Ho HF Hin. cbv zeta. unfold confirm, ask. run.
  rewrite (_ask_open _ _ _ _ _ _ Ho), Hin.
  rewrite (readLoop_skip _ _ _ _ false false)
    by (apply rejected_confirm; auto).
  cbn [readLoop]. rewrite app_nil_r. reflexivity.
Qed.

(** ** [git] on the configuration *)

Lemma git_set (k v : string) (w : World) :
  git ["config"; "--local"; k; v] w
  = (("", None), mkWorld (<[k := v]> (config w)) (tty w) (stdin w) (rng w),
     [EvGit ["config"; "--local"; k; v]]).
Proof. reflexivity. Qed.

Lemma git_get (k : string) (w : World) :
  git ["config"; "--local"; k] w
  = match config w !! k with
    | Some v => ((TrimSpace v, None), w, [EvGit ["config"; "--local"; k]])
    | None => (("", Some gitError), w, [EvGit ["config"; "--local"; k]])
    end.
Proof.
  unfold git, gitProgram. run. destruct (config w !! k); reflexivity.
Qed.

(** ** The decision to store (lines 91-96) *)

Lemma gather_store_eq (c : Command) (sec : string) (askToStore : bool) (w : World) :
  gather_store c sec askToStore w
  = let '(b, w1, ev1) :=
      if askToStore then confirm storePrompt w else (false, w, []) in
    if b || store_sec_flag c
    then (Return None sec false None,
          mkWorld (<["str.secretkey" := sec]> (config w1)) (tty w1) (stdin w1) (rng w1),
          (ev1 ++ [EvGit ["config"; "--local"; "str.secretkey"; sec]])%list)
    else (Return None sec false None, w1, ev1).
Proof.
  unfold gather_store. unfold bind at 1.
  destruct askToStore.
  - destruct (confirm storePrompt w) as [[b w1] ev1].
    destruct (b || store_sec_flag c); unfold bind, ret; rewrite ?git_set; cbn;
      rewrite ?app_nil_r; reflexivity.
  - unfold ret at 1. cbn [orb].
    destruct (store_sec_flag c); unfold bind, ret; rewrite ?git_set; cbn;
      reflexivity.
Qed.

(** C10. [confirm] returns true exactly when the terminal opens and the
    first line that is a yes or a no, after trimming and lower-casing,
    is "y" or "yes", every line before it being neither; a line that is
    none of "y", "yes", "n", "no" is read and the question is asked
    again, with the result the remaining input gives; when the terminal
    does not open or a read fails before an answer is accepted, the
    error is dropped and the result is false.  So in the resolver an
    interrupted confirmation and a typed "n" or "no" give the same
    outcome, the same configuration and the same decision to store. *)
Theorem confirm_yes_no_or_false :
  (forall msg w b w' evs,
      confirm msg w = (b, w', evs) ->
      (b = true <->
       terminalOpens w /\
       exists skipped line rest,
         stdin w = (map inl skipped ++ inl line :: rest)%list
         /\ Forall (fun l => isYesNo (normalize l) = false) skipped
         /\ isYes (normalize line) = true))
  /\ (forall msg w line rest,
         terminalOpens w ->
         isYesNo (normalize line) = false ->
         fst (confirm msg (withStdin w (inl line :: rest)))
         = fst (confirm msg (withStdin w rest))
         /\ In line (linesRead (snd (confirm msg (withStdin w (inl line :: rest))))))
  /\ (forall msg w b w' evs,
         confirm msg w = (b, w', evs) ->
         (exists e t, tty w = Some e :: t)
         \/ (exists skipped e rest,
                stdin w = (map inl skipped ++ inr e :: rest)%list
                /\ Forall (fun l => isYesNo (normalize l) = false) skipped) ->
         b = false)
  /\ (forall c sec w e rest no rest',
         terminalOpens w ->
         isNo (normalize no) = true ->
         let '(o1, w1, ev1) :=
           gather_store c sec true (withStdin w (inr e :: rest)) in
         let '(o2, w2, ev2) :=
           gather_store c sec true (withStdin w (inl no :: rest')) in
         o1 = o2 /\ config w1 = config w2 /\ (storeCalled ev1 <-> storeCalled ev2)).
Proof.
  split; [|split; [|split]].
  - intros msg w b w' evs H. split.
    + intros ->.
      destruct (confirm_spec _ _ _ _ _ H) as (_ & _ & Hcase).
      destruct Hcase as [(e & _ & Hb & _) | (Ho & _ & skipped & HF & Hend)];
        [discriminate|].
      split; [exact Ho|].
      destruct Hend as [(l & Hin & _ & Hb & _) | (e & _ & Hb & _)];
        [|discriminate].
      exists skipped, l, (stdin w'). auto.
    + intros (Ho & skipped & line & rest & Hin & HF & Hy).
      assert (Hyn : isYesNo (normalize line) = true)
        by (unfold isYesNo; rewrite Hy; reflexivity).
      pose proof (confirm_run_answer msg w skipped line rest Ho HF Hyn Hin) as Hrun.
      cbv zeta in Hrun. rewrite Hrun in H. inversion H; subst. exact Hy.
  - intros msg w line rest Ho Hn.
    unfold confirm, ask. run.
    rewrite !_ask_open by exact Ho. cbn [stdin withStdin readLoop].
    rewrite (confirmAnswer_other _ _ Hn).
    destruct (readLoop _ (Some confirmAnswer) rest false) as [[[r st'] rest1] evs1].
    cbn. split; [reflexivity|]. left. reflexivity.
  - intros msg w b w' evs H [(e & t & Ht) | (skipped & e & rest & Hin & HF)].
    + unfold confirm, ask in H. run. rewrite (_ask_closed _ _ _ _ _ _ _ _ Ht) in H.
      inversion H; reflexivity.
    + destruct (confirm_spec _ _ _ _ _ H) as (_ & _ & Hcase).
      destruct Hcase as [(e' & _ & Hb & _) | (Ho & _ & _)]; [exact Hb|].
      pose proof (confirm_run_error msg w skipped e rest Ho HF Hin) as Hrun.
      cbv zeta in Hrun. rewrite Hrun in H. inversion H; reflexivity.
  - intros c sec w e rest no rest' Ho Hno.
    rewrite !gather_store_eq.
    assert (Hyn : isYesNo (normalize no) = true)
      by (unfold isYesNo; rewrite Hno; apply orb_true_r).
    pose proof (confirm_run_error storePrompt (withStdin w (inr e :: rest))
                  [] e rest Ho ltac:(constructor) eq_refl) as H1.
    pose proof (confirm_run_answer storePrompt (withStdin w (inl no :: rest'))
                  [] no rest' Ho ltac:(constructor) Hyn eq_refl) as H2.
    cbv zeta in H1, H2. rewrite H1, H2, (isNo_not_yes _ Hno).
    cbn [orb withStdin config tty rng stdin map app].
    destruct (store_sec_flag c); cbn [config].
    + split; [reflexivity|]. split; [reflexivity|].
      split; intros _; exists sec; cbn;
        repeat (first [left; reflexivity | right]).
    + split; [reflexivity|]. split; [reflexivity|].
      split; intros (v & Hin); exfalso;
        repeat (destruct Hin as [Hin|Hin]; [discriminate|]); exact Hin.
Qed.

(** ** [promptDecrypt] *)

Lemma decryptCalls_app (e1 e2 : list Event) :
  decryptCalls (e1 ++ e2)%list = (decryptCalls e1 ++ decryptCalls e2)%list.
Proof.
  induction e1 as [|ev e1 IH]; [reflexivity|].
  destruct ev; cbn; rewrite ?IH; reflexivity.
Qed.

Lemma linesRead_app (e1 e2 : list Event) :
  linesRead (e1 ++ e2)%list = (linesRead e1 ++ linesRead e2)%list.
Proof.
  induction e1 as [|ev e1 IH]; [reflexivity|].
  destruct ev as [| | | | |cfg [l|e]|]; cbn; rewrite ?IH; reflexivity.
Qed.

Lemma failedAttempts_nil (nc : string) : failedAttempts nc 0 [].
Proof. repeat split; constructor. Qed.

(** One more failed attempt in front of a trace of failed attempts. *)
Lemma failedAttempts_cons (nc : string) (k : nat) (cfg : Config)
    (line : string) (e : error) (pre : list Event) :
  Decrypt nc (normalize line) = inr e ->
  failedAttempts nc k pre ->
  failedAttempts nc (S k)
    (EvNewEx cfg None :: EvWriteStdin "" :: readOf cfg line
     :: EvDecrypt nc (normalize line) :: pre).
Proof.
  intros Hd (Hre & Hl & Hc & Hf). repeat split.
  - repeat constructor. exact Hre.
  - cbn. rewrite Hl. reflexivity.
  - cbn. rewrite Hc. reflexivity.
  - cbn. constructor; [|exact Hf]. split; [reflexivity|]. exists e. exact Hd.
Qed.

(** The shape of every run of the loop: some attempts that fail to
    decrypt, then a successful decrypt, or the end of the attempts, or
    a prompt that fails. *)
Lemma promptDecryptLoop_spec (nc : string) (attempts : list nat) :
  forall w r w' evs,
    promptDecryptLoop attempts nc w = (r, w', evs) ->
    exists k pre last,
      evs = (pre ++ last)%list /\ failedAttempts nc k pre /\
      ((exists sec cfg line,
           r = (sec, None) /\ k < List.length attempts
           /\ Decrypt nc (normalize line) = inl sec
           /\ last = [EvNewEx cfg None; EvWriteStdin ""; readOf cfg line;
                      EvDecrypt nc (normalize line)])
       \/ (r = ("", Some (Errorf "couldn't decrypt private key"))
           /\ k = List.length attempts /\ last = [])
       \/ (exists e cfg,
             r = ("", Some e) /\ k < List.length attempts
             /\ (last = [EvNewEx cfg (Some e)]
                 \/ last = [EvNewEx cfg None; EvWriteStdin "";
                            EvReadline cfg (inr e)]))).
Proof.
  induction attempts as [|i later IH]; intros w r w' evs H.
  - cbn in H. inversion H; subst. exists 0, [], [].
    split; [reflexivity|]. split; [apply failedAttempts_nil|]. right. left. auto.
  - cbn [promptDecryptLoop] in H. unfold bind at 1 in H.
    unfold askPassword in H.
    set (msg := passwordPrompt +:+ attemptStr i +:+ ": ") in *.
    set (cfg := askPasswordConfig msg) in *.
    destruct (_ask cfg msg "" None tt w) as [[[[password err] u] w1] ev1] eqn:Ha.
    destruct (_ask_spec _ _ _ _ _ _ _ _ _ _ Ha) as (_ & _ & Hcase).
    destruct Hcase as [(e & _ & Hr & _ & _ & ->) | (_ & _ & evs' & Hl & ->)].
    + inversion Hr; subst. cbn in H. inversion H; subst.
      exists 0, [], [EvNewEx cfg (Some e)].
      split; [reflexivity|]. split; [apply failedAttempts_nil|].
      right. right. exists e, cfg. cbn. split; [reflexivity|]. split; [lia|auto].
    + rewrite readLoop_nil_pred in Hl.
      destruct (stdin w) as [|[line|e] rest].
      * inversion Hl; subst. cbn in H. inversion H; subst.
        exists 0, [], [EvNewEx cfg None; EvWriteStdin ""; EvReadline cfg (inr EOF)].
        split; [reflexivity|]. split; [apply failedAttempts_nil|].
        right. right. exists EOF, cfg. cbn. split; [reflexivity|]. split; [lia|auto].
      * inversion Hl; subst. clear Hl.
        unfold nip49_Decrypt in H. run.
        destruct (Decrypt nc (normalize line)) as [sec|e] eqn:Hd.
        -- inversion H; subst.
           exists 0, [], [EvNewEx cfg None; EvWriteStdin ""; readOf cfg line;
                          EvDecrypt nc (normalize line)].
           split; [reflexivity|]. split; [apply failedAttempts_nil|].
           left. exists sec, cfg, line. cbn. repeat split; auto; lia.
        -- destruct (promptDecryptLoop later nc w1) as [[r2 w2] ev2] eqn:Hn.
           inversion H; subst. clear H.
           destruct (IH _ _ _ _ Hn) as (k & pre & last & -> & Hpre & Hend).
           exists (S k), (EvNewEx cfg None :: EvWriteStdin "" :: readOf cfg line
                           :: EvDecrypt nc (normalize line) :: pre), last.
           split; [reflexivity|].
           split; [eapply failedAttempts_cons; eauto|].
           cbn [List.length].
           destruct Hend as [(sec & cfg' & l' & -> & Hk & Hd' & ->)
                            | [(-> & -> & ->) | (e' & cfg' & -> & Hk & Hlast)]].
           ++ left. exists sec, cfg', l'. repeat split; auto; lia.
           ++ right. left. auto.
           ++ right. right. exists e', cfg'. repeat split; auto; lia.
      * inversion Hl; subst. cbn in H. inversion H; subst.
        exists 0, [], [EvNewEx cfg None; EvWriteStdin ""; EvReadline cfg (inr e)].
        split; [reflexivity|]. split; [apply failedAttempts_nil|].
        right. right. exists e, cfg. cbn. split; [reflexivity|]. split; [lia|auto].
Qed.

(** Every run of the loop, event by event. *)
Lemma promptDecryptLoop_run (nc : string) (n : nat) :
  forall i w r w' evs,
    promptDecryptLoop (seq i n) nc w = (r, w', evs) ->
    exists failed,
      Forall (fun line => exists e, Decrypt nc (normalize line) = inr e) failed
      /\ loopEnds nc i n w failed r w' evs.
Proof.
  induction n as [|n IH]; intros i w r w' evs H.
  - cbn in H. inversion H; subst. exists []. split; [constructor|].
    right. left. auto.
  - cbn [seq promptDecryptLoop] in H. unfold bind at 1 in H.
    unfold askPassword in H. fold (attemptConfig i) in H.
    set (cfg := attemptConfig i) in *.
    destruct (_ask cfg (passwordPrompt +:+ attemptStr i +:+ ": ") "" None tt w)
      as [[[[password err] u] w1] ev1] eqn:Ha.
    destruct (_ask_spec _ _ _ _ _ _ _ _ _ _ Ha) as (_ & _ & Hcase).
    destruct Hcase as [(e & _ & Hr & _ & Hin & ->) | (_ & _ & evs' & Hl & ->)].
    + inversion Hr; subst. cbn in H. inversion H; subst.
      exists []. split; [constructor|]. right. right. exists e.
      unfold loopEnds. cbn [List.length map app attemptsTrace]. rewrite Nat.add_0_r.
      split; [lia|]. split; [reflexivity|]. left. auto.
    + rewrite readLoop_nil_pred in Hl.
      destruct (stdin w) as [|[line|e] rest] eqn:Hin.
      * inversion Hl; subst. cbn in H. inversion H; subst.
        exists []. split; [constructor|]. right. right. exists EOF.
        cbn [List.length map app attemptsTrace]. rewrite Nat.add_0_r.
        split; [lia|]. split; [reflexivity|]. right. split; [reflexivity|].
        right. auto.
      * inversion Hl; subst. clear Hl.
        unfold nip49_Decrypt in H. run.
        destruct (Decrypt nc (normalize line)) as [sec|e] eqn:Hd.
        -- inversion H; subst. exists []. split; [constructor|]. left.
           exists line, sec. cbn [List.length map app attemptsTrace].
           split; [lia|]. split; [exact Hd|]. split; [reflexivity|].
           split; [reflexivity | exact Hin].
        -- destruct (promptDecryptLoop (seq (S i) n) nc w1) as [[r2 w2] ev2] eqn:Hn.
           inversion H; subst. clear H.
           destruct (IH _ _ _ _ _ Hn) as (failed & Hfailed & Hend).
           exists (line :: failed). split; [constructor; eauto|].
           unfold loopEnds in *. cbn [List.length map app attemptsTrace].
           rewrite Nat.add_succ_r, Hin. cbn [Nat.add] in Hend.
           destruct Hend as [(l & sec & Hk & Hok & -> & -> & ->)
                            | [(Hk & -> & -> & ->)
                              | (e' & Hk & -> & Hlast)]].
           ++ left. exists l, sec. repeat split; auto; lia.
           ++ right. left. repeat split; auto; lia.
           ++ right. right. exists e'. split; [lia|]. split; [reflexivity|].
              destruct Hlast as [(-> & ->) | (-> & [-> | (-> & Hnil & ->)])].
              ** left. auto.
              ** right. split; [reflexivity|]. left. reflexivity.
              ** right. split; [reflexivity|]. right. rewrite Hnil. auto.
      * inversion Hl; subst. cbn in H. inversion H; subst.
        exists []. split; [constructor|]. right. right. exists e.
        cbn [List.length map app attemptsTrace]. rewrite Nat.add_0_r.
        split; [lia|]. split; [reflexivity|]. right. split; [reflexivity|].
        left. exact Hin.
Qed.

Lemma decryptCalls_In (n p : string) (evs : list Event) :
  In (EvDecrypt n p) evs -> In (n, p) (decryptCalls evs).
Proof.
  induction evs as [|ev evs IH]; [auto|].
  intros [->|H]; [left; reflexivity|].
  destruct ev; cbn; auto.
Qed.

Lemma failing_not_ok (n p sec : string) :
  failing (n, p) -> Decrypt n p = inl sec -> False.
Proof. intros (e & He). cbn in He. congruence. Qed.

Lemma failing_all (evs : list Event) (n p sec : string) :
  Forall failing (decryptCalls evs) ->
  In (EvDecrypt n p) evs -> Decrypt n p = inl sec -> False.
Proof.
  intros HF Hin Hok. apply decryptCalls_In in Hin.
  rewrite List.Forall_forall in HF. eapply failing_not_ok; eauto.
Qed.

Lemma failedAttempts_failing (nc : string) (k : nat) (pre : list Event) :
  failedAttempts nc k pre -> Forall failing (decryptCalls pre).
Proof.
  intros (_ & _ & _ & H). eapply List.Forall_impl; [|exact H].
  cbn. intros call [_ Hf]. exact Hf.
Qed.

(** C2. Every run of [promptDecrypt] is a number of failed attempts,
    each a prompt, a passphrase read and a call of the decrypt
    primitive on it that fails, followed by one of three endings: one
    more attempt whose call succeeds, and its plaintext is returned at
    once; nothing more, after exactly three failed attempts, and the
    result is the one error "couldn't decrypt private key" whatever the
    errors of the calls were; or a prompt that does not open or whose
    read fails, and that error is the result.  A failed call is thus
    followed by the next prompt unless it was the third, and its error
    is never returned.  In particular the primitive is called at most
    three times, a plaintext that is returned is the result of the last
    call, which is the last event of the run, all calls before it
    having failed, and a call that succeeds is the last event. *)
Theorem promptDecrypt_at_most_three (nc : string) (w : World) r w' evs :
  promptDecrypt nc w = (r, w', evs) ->
  (exists failed,
      Forall (fun line => exists e, Decrypt nc (normalize line) = inr e) failed
      /\ loopEnds nc 1 3 w failed r w' evs)
  /\ List.length (decryptCalls evs) <= 3
  /\ (forall sec,
         r = (sec, None) ->
         exists pre pw,
           evs = (pre ++ [EvDecrypt nc pw])%list
           /\ Decrypt nc pw = inl sec
           /\ Forall failing (decryptCalls pre))
  /\ (forall pw sec,
         In (EvDecrypt nc pw) evs ->
         Decrypt nc pw = inl sec ->
         r = (sec, None) /\ exists pre, evs = (pre ++ [EvDecrypt nc pw])%list)
  /\ (List.length (decryptCalls evs) = 3 ->
      Forall failing (decryptCalls evs) ->
      r = ("", Some (Errorf "couldn't decrypt private key"))).
Proof.
  intros H. split; [exact (promptDecryptLoop_run nc 3 1 w r w' evs H)|].
  revert H.
  unfold promptDecrypt. intros H.
  destruct (promptDecryptLoop_spec _ _ _ _ _ _ H)
    as (k & pre & last & -> & Hpre & Hend).
  pose proof (failedAttempts_failing _ _ _ Hpre) as Hfail.
  destruct Hpre as (Hre & Hlines & Hcalls & Hall).
  rewrite decryptCalls_app, length_app, Hcalls. cbn [seq List.length] in Hend.
  destruct Hend as [(sec & cfg & line & -> & Hk & Hd & ->)
                   | [(-> & -> & ->) | (e & cfg & -> & Hk & Hlast)]].
  - cbn [decryptCalls List.length readOf]. split; [lia|]. split; [|split].
    + intros sec' Hs. inversion Hs; subst.
      exists (pre ++ [EvNewEx cfg None; EvWriteStdin ""; readOf cfg line])%list,
        (normalize line).
      split; [rewrite <- app_assoc; reflexivity|]. split; [exact Hd|].
      rewrite decryptCalls_app. cbn. rewrite app_nil_r. exact Hfail.
    + intros pw sec' Hin Hok. apply in_app_or in Hin as [Hin|Hin].
      * exfalso. eapply failing_all; eauto.
      * destruct Hin as [Hin|[Hin|[Hin|[Hin|[]]]]]; try discriminate.
        inversion Hin; subst. split; [congruence|].
        exists (pre ++ [EvNewEx cfg None; EvWriteStdin ""; readOf cfg line])%list.
        rewrite <- app_assoc. reflexivity.
    + intros _ HF. exfalso. apply Forall_app in HF as [_ HF].
      inversion HF as [|? ? Hf _]; subst. eapply failing_not_ok; eauto.
  - cbn [decryptCalls List.length]. split; [lia|]. split; [|split].
    + intros sec Hs. discriminate.
    + intros pw sec Hin Hok. rewrite app_nil_r in Hin. exfalso.
      eapply failing_all; eauto.
    + reflexivity.
  - assert (Hnone : decryptCalls last = []) by (destruct Hlast as [->| ->]; reflexivity).
    rewrite Hnone. cbn [List.length]. split; [lia|]. split; [|split].
    + intros sec Hs. discriminate.
    + intros pw sec Hin Hok. exfalso. apply in_app_or in Hin as [Hin|Hin].
      * eapply failing_all; eauto.
      * apply decryptCalls_In in Hin. rewrite Hnone in Hin. destruct Hin.
    + intros Hlen. lia.
Qed.

(** C9. When in a run of [promptDecrypt] the terminal does not open or
    a read of the passphrase fails with error [e], that event is the
    last of the run and [e] itself is returned.  The decrypt primitive
    was called once for every passphrase read before and not for the
    failed attempt, so fewer than three times, each of those calls
    having failed. *)
Theorem promptDecrypt_read_error (nc : string) (w : World) r w' evs :
  promptDecrypt nc w = (r, w', evs) ->
  forall ev e,
    In ev evs -> readError ev = Some e ->
    r = ("", Some e)
    /\ (exists pre,
           evs = (pre ++ [ev])%list
           /\ decryptCalls pre = decryptCalls evs
           /\ Forall (fun ev' => readError ev' = None) pre)
    /\ List.length (decryptCalls evs) = List.length (linesRead evs)
    /\ List.length (decryptCalls evs) < 3
    /\ Forall failing (decryptCalls evs).
Proof.
  unfold promptDecrypt. intros H ev e Hin He.
  destruct (promptDecryptLoop_spec _ _ _ _ _ _ H)
    as (k & pre & last & -> & Hpre & Hend).
  pose proof (failedAttempts_failing _ _ _ Hpre) as Hfail.
  destruct Hpre as (Hre & Hlines & Hcalls & Hall).
  cbn [seq List.length] in Hend.
  apply in_app_or in Hin as [Hin|Hin].
  { rewrite List.Forall_forall in Hre. apply Hre in Hin. congruence. }
  destruct Hend as [(sec & cfg & line & -> & Hk & Hd & ->)
                   | [(-> & -> & ->) | (e' & cfg & -> & Hk & Hlast)]].
  - exfalso. destruct Hin as [<-|[<-|[<-|[<-|[]]]]]; discriminate.
  - destruct Hin.
  - rewrite decryptCalls_app, linesRead_app, !length_app, Hcalls, Hlines.
    destruct Hlast as [-> | ->].
    + destruct Hin as [<-|[]]. cbn in He. inversion He; subst.
      split; [reflexivity|]. split.
      { exists pre. cbn. rewrite app_nil_r. auto. }
      cbn. rewrite app_nil_r. split; [reflexivity|]. split; [lia|exact Hfail].
    + destruct Hin as [<-|[<-|[<-|[]]]]; try discriminate.
      cbn in He. inversion He; subst.
      split; [reflexivity|]. split.
      { exists (pre ++ [EvNewEx cfg None; EvWriteStdin ""])%list.
        rewrite <- app_assoc. split; [reflexivity|].
        rewrite ?decryptCalls_app. cbn. rewrite ?app_nil_r. split; [reflexivity|].
        apply Forall_app. split; [exact Hre|]. repeat constructor. }
      cbn. rewrite app_nil_r. split; [reflexivity|]. split; [lia|exact Hfail].
Qed.

(** ** The resolver, piece by piece *)

Lemma isEmpty_true (s : string) : isEmpty s = true <-> s = "".
Proof. destruct s; cbn; split; congruence. Qed.

Lemma isEmpty_false (s : string) : isEmpty s = false <-> s <> "".
Proof. destruct s; cbn; split; congruence. Qed.

(** Lines 35-38.  With the flag given, it is the address.  Without it,
    [git] is called with the (empty) address as fourth argument: the
    call writes the empty value to [str.bunker] and prints nothing, so
    the address stays empty. *)
Lemma gather_bunkerURL_eq (c : Command) (w : World) :
  gather_bunkerURL c w
  = if isEmpty (connect_flag c)
    then ("", mkWorld (<["str.bunker" := ""]> (config w)) (tty w) (stdin w) (rng w),
          [EvGit ["config"; "--local"; "str.bunker"; ""]])
    else (connect_flag c, w, []).
Proof.
  unfold gather_bunkerURL. destruct (connect_flag c); reflexivity.
Qed.

Lemma gather_bunkerURL_spec (c : Command) (w : World) url w0 ev0 :
  gather_bunkerURL c w = (url, w0, ev0) ->
  tty w0 = tty w /\ stdin w0 = stdin w /\ rng w0 = rng w
  /\ config w0 !! "str.secretkey" = config w !! "str.secretkey"
  /\ (forall ev, In ev ev0 -> ev = EvGit ["config"; "--local"; "str.bunker"; ""])
  /\ (url <> "" -> url = connect_flag c /\ w0 = w /\ ev0 = []).
Proof.
  rewrite gather_bunkerURL_eq. destruct (isEmpty (connect_flag c)) eqn:E;
    intros H; inversion H; subst; cbn.
  - split; [reflexivity|]. split; [reflexivity|]. split; [reflexivity|].
    split; [apply lookup_insert_ne; discriminate|].
    split; [intros ev [<-|[]]; reflexivity | congruence].
  - apply isEmpty_false in E.
    repeat split; auto. intros ev [].
Qed.

(** Lines 40-45. *)
Lemma gather_bunker_eq (url : string) (w : World) :
  gather_bunker url w
  = let clientKey := GeneratePrivateKey (rng w) in
    let '(bunker, err) := ConnectBunker clientKey url in
    (Return bunker "" false err,
     mkWorld (match bunker with
              | Some _ => <["str.bunker" := url]> (config w)
              | None => config w
              end) (tty w) (stdin w) (S (rng w)),
     ([EvGeneratePrivateKey clientKey; EvConnectBunker clientKey url]
      ++ match bunker with
         | Some _ => [EvGit ["config"; "--local"; "str.bunker"; url]]
         | None => []
         end)%list).
Proof.
  unfold gather_bunker, nostr_GeneratePrivateKey, nip46_ConnectBunker. run.
  cbv zeta. destruct (ConnectBunker (GeneratePrivateKey (rng w)) url) as [[h|] err];
    rewrite ?git_set; reflexivity.
Qed.

(** Lines 39-46, the remote path.  When the address of the remote
    signer, as lines 35-38 leave it, is not empty, the resolver draws a
    new client key, calls the signer once
    with that key and the address, and returns what the call returned:
    the handle and the error as they are.  A handle makes it write the
    address to [str.bunker]; in particular a successful connection
    leaves the address stored and returns the handle, and a failed one
    returns the error of the connection.  On this path nothing is read
    from the terminal and git is never called on [str.secretkey]. *)
Theorem bunker_path_taken (c : Command) (w : World) url w0 ev0 bunker err :
  gather_bunkerURL c w = (url, w0, ev0) ->
  url <> "" ->
  ConnectBunker (GeneratePrivateKey (rng w)) url = (bunker, err) ->
  exists w' evs,
    gatherSecretKeyOrBunker c w = (Return bunker "" false err, w', evs)
    /\ evs = (ev0 ++ [EvGeneratePrivateKey (GeneratePrivateKey (rng w));
                      EvConnectBunker (GeneratePrivateKey (rng w)) url]
              ++ match bunker with
                 | Some _ => [EvGit ["config"; "--local"; "str.bunker"; url]]
                 | None => []
                 end)%list
    /\ (forall h, bunker = Some h -> config w' !! "str.bunker" = Some url)
    /\ (bunker = None -> config w' = config w)
    /\ List.length (filter isConnect evs) = 1
    /\ stdin w' = stdin w /\ tty w' = tty w
    /\ Forall (fun ev => isTerminalEvent ev = false
                         /\ touchesSetting "str.secretkey" ev = false) evs.
Proof.
  intros H0 Hurl Hc.
  destruct (gather_bunkerURL_spec _ _ _ _ _ H0) as (_ & _ & _ & _ & _ & Hflag).
  destruct (Hflag Hurl) as (-> & -> & ->). clear Hflag.
  unfold gatherSecretKeyOrBunker. unfold bind at 1. rewrite H0.
  apply isEmpty_false in Hurl. rewrite Hurl. cbn [negb].
  rewrite gather_bunker_eq. cbv zeta. rewrite Hc.
  eexists _, _. split; [reflexivity|]. cbn [app].
  split; [reflexivity|].
  destruct bunker as [h|]; cbn.
  - split; [intros h' _; apply lookup_insert_eq|].
    split; [discriminate|].
    repeat split; auto; repeat constructor.
  - split; [discriminate|]. repeat split; auto; repeat constructor.
Qed.

(** Lines 48-73. *)

Lemma secretAnswer_unfold (a : string) (st : bool) :
  secretAnswer a st
  = if IsValid32ByteHex a || HasPrefix a "nsec1" then (false, true)
    else if HasPrefix a "ncryptsec1" then (false, st) else (true, st).
Proof.
  unfold secretAnswer. destruct (IsValid32ByteHex a); reflexivity.
Qed.

Lemma secretAnswer_again (a : string) (st st' : bool) :
  secretAnswer a st = (true, st') -> st' = st.
Proof.
  rewrite secretAnswer_unfold.
  destruct (IsValid32ByteHex a || HasPrefix a "nsec1"); [discriminate|].
  destruct (HasPrefix a "ncryptsec1"); intros H; inversion H; reflexivity.
Qed.

Lemma secretAnswer_accept (a : string) (st st' : bool) :
  secretAnswer a st = (false, st') ->
  (IsValid32ByteHex a || HasPrefix a "nsec1" = true /\ st' = true)
  \/ (IsValid32ByteHex a || HasPrefix a "nsec1" = false
      /\ HasPrefix a "ncryptsec1" = true /\ st' = st).
Proof.
  rewrite secretAnswer_unfold. intros H.
  destruct (IsValid32ByteHex a || HasPrefix a "nsec1").
  - inversion H. auto.
  - destruct (HasPrefix a "ncryptsec1"); inversion H. auto.
Qed.

Lemma rejected_secret (skipped : list string) (st st0 : bool) :
  rejected secretAnswer skipped st = Some st0 -> st0 = st.
Proof.
  revert st. induction skipped as [|l skipped IH]; intros st; cbn [rejected].
  - intros H. inversion H. reflexivity.
  - destruct (secretAnswer (normalize l) st) as [again st1] eqn:E.
    destruct again; [|discriminate].
    apply secretAnswer_again in E as ->. apply IH.
Qed.

Lemma gather_sec_eq (c : Command) (w : World) :
  gather_sec c w
  = let '(sec, evg) :=
      if isEmpty (sec_flag c) && negb (sec_is_set c)
      then (storedSecret w, [EvGit ["config"; "--local"; "str.secretkey"]])
      else (sec_flag c, []) in
    if isEmpty sec then
      let '(((a, err), askToStore), w1, eva) :=
        ask secretPrompt "" (Some secretAnswer) false w in
      (if isEmpty a then inr (Errorf "couldn't gather secret key")
       else inl (a, askToStore), w1, (evg ++ eva)%list)
    else (inl (sec, false), w, evg).
Proof.
  unfold gather_sec, storedSecret. unfold bind at 1.
  destruct (isEmpty (sec_flag c) && negb (sec_is_set c)).
  - unfold bind at 1. rewrite git_get.
    destruct (config w !! "str.secretkey") as [v|]; unfold ret at 1; cbn [app].
    + destruct (isEmpty (TrimSpace v)); [|reflexivity].
      unfold bind.
      destruct (ask secretPrompt "" (Some secretAnswer) false w)
        as [[[[a err] ats] w1] eva].
      destruct (isEmpty a); unfold ret; cbn; rewrite app_nil_r; reflexivity.
    + cbn [isEmpty]. unfold bind.
      destruct (ask secretPrompt "" (Some secretAnswer) false w)
        as [[[[a err] ats] w1] eva].
      destruct (isEmpty a); unfold ret; cbn; rewrite app_nil_r; reflexivity.
  - unfold ret at 1. cbn [app].
    destruct (isEmpty (sec_flag c)); [|reflexivity].
    unfold bind.
    destruct (ask secretPrompt "" (Some secretAnswer) false w)
      as [[[[a err] ats] w1] eva].
    destruct (isEmpty a); unfold ret; cbn; rewrite app_nil_r; reflexivity.
Qed.

Lemma gather_sec_spec (c : Command) (w : World) r w1 ev1 :
  gather_sec c w = (r, w1, ev1) ->
  config w1 = config w /\ rng w1 = rng w
  /\ (forall ev, In ev ev1 ->
        ev = EvGit ["config"; "--local"; "str.secretkey"]
        \/ isPromptOf (askConfig secretPrompt) ev)
  /\ match r with
     | inl (sec, askToStore) =>
         sec <> ""
         /\ ((askToStore = false /\ stdin w1 = stdin w /\ tty w1 = tty w
              /\ (forall ev, In ev ev1 -> isTerminalEvent ev = false))
             \/ (exists skipped line,
                    stdin w = (map inl skipped ++ inl line :: stdin w1)%list
                    /\ sec = normalize line
                    /\ In (readOf (askConfig secretPrompt) line) ev1
                    /\ askToStore = IsValid32ByteHex sec || HasPrefix sec "nsec1"
                    /\ (askToStore = false -> HasPrefix sec "ncryptsec1" = true)))
     | inr e => e = Errorf "couldn't gather secret key"
     end.
Proof.
  rewrite gather_sec_eq.
  set (get := EvGit ["config"; "--local"; "str.secretkey"]).
  destruct (if isEmpty (sec_flag c) && negb (sec_is_set c)
            then (storedSecret w, [get]) else (sec_flag c, []))
    as [sec evg] eqn:Hsrc.
  assert (Hevg : forall ev, In ev evg -> ev = get).
  { destruct (isEmpty (sec_flag c) && negb (sec_is_set c));
      inversion Hsrc; subst; intros ev Hin; [destruct Hin as [<-|[]]; reflexivity | destruct Hin]. }
  destruct (isEmpty sec) eqn:Hsec.
  - unfold ask.
    destruct (_ask (askConfig secretPrompt) secretPrompt "" (Some secretAnswer) false w)
      as [[[[a err] ats] w1'] eva] eqn:Ha.
    intros H. inversion H; subst; clear H.
    destruct (_ask_spec _ _ _ _ _ _ _ _ _ _ Ha) as (Hc & Hr & Hcase).
    split; [exact Hc|]. split; [exact Hr|]. split.
    { intros ev Hin. apply in_app_or in Hin as [Hin|Hin]; [left; auto|].
      right. destruct (_ask_events _ _ _ _ _ _ _ _ _ _ Ha ev Hin)
        as [Hn | [Hw | Hrd]]; unfold isPromptOf; auto. }
    destruct (isEmpty a) eqn:Hea; [reflexivity|].
    apply isEmpty_false in Hea. split; [exact Hea|]. right.
    destruct Hcase as [(e & _ & Hres & _) | (_ & _ & evs' & Hl & ->)].
    { inversion Hres; subst. congruence. }
    destruct (readLoop_spec _ _ _ _ _ _ _ _ Hl) as (skipped & st0 & Hrej & Hend).
    apply rejected_secret in Hrej as ->.
    destruct Hend as [(l & Hin & Hres & Hacc & ->) | (e & _ & Hres & _)];
      [|inversion Hres; subst; congruence].
    inversion Hres; subst. exists skipped, l.
    split; [exact Hin|]. split; [reflexivity|]. split.
    { apply in_or_app. right. right. right. apply in_or_app. right. left. reflexivity. }
    apply secretAnswer_accept in Hacc as [(Hp & ->) | (Hp & Hn & ->)].
    + rewrite Hp. split; [reflexivity | discriminate].
    + rewrite Hp. split; [reflexivity | auto].
  - intros H. inversion H; subst; clear H.
    split; [reflexivity|]. split; [reflexivity|]. split.
    { intros ev Hin. left. auto. }
    apply isEmpty_false in Hsec. split; [exact Hsec|]. left.
    repeat split; auto. intros ev Hin. rewrite (Hevg _ Hin). reflexivity.
Qed.

(** Lines 75-77. *)
Lemma gather_key_encrypted (c : Command) (sec : string) (askToStore : bool) (w : World) :
  HasPrefix sec "ncryptsec1" = true ->
  gather_key c sec askToStore w
  = (Return None sec true None,
     mkWorld (<["str.secretkey" := sec]> (config w)) (tty w) (stdin w) (rng w),
     [EvGit ["config"; "--local"; "str.secretkey"; sec]]).
Proof.
  unfold gather_key. intros ->. unfold bind, ret. rewrite git_set. reflexivity.
Qed.

Lemma gatherSecretKeyOrBunker_local (c : Command) (w : World) w0 ev0 :
  gather_bunkerURL c w = ("", w0, ev0) ->
  gatherSecretKeyOrBunker c w
  = let '(r, w1, ev1) := gather_sec c w0 in
    match r with
    | inr err => (Return None "" false (Some err), w1, (ev0 ++ ev1)%list)
    | inl (sec, askToStore) =>
        let '(o, w2, ev2) := gather_key c sec askToStore w1 in
        (o, w2, (ev0 ++ ev1 ++ ev2)%list)
    end.
Proof.
  intros H0. unfold gatherSecretKeyOrBunker. unfold bind at 1. rewrite H0.
  cbn [isEmpty negb]. unfold bind.
  destruct (gather_sec c w0) as [[[[sec ats]|err] w1] ev1].
  - destruct (gather_key c sec ats w1) as [[o w2] ev2]. reflexivity.
  - unfold ret. rewrite app_nil_r. reflexivity.
Qed.

Lemma isPromptOf_masked (cfg : Config) (ev : Event) :
  isPromptOf cfg ev -> isMasked ev = EnableMask cfg \/ isMasked ev = false.
Proof. intros [(e & ->) | [-> | (res & ->)]]; cbn; auto. Qed.

(** C8. When the secret string the resolver has settled on (from the
    flag, the stored setting or the prompt) starts with "ncryptsec1",
    the resolver writes exactly that string to [str.secretkey],
    whatever the force-store flag is and without asking, and returns
    it unchanged with [encrypted] true.  The decrypt primitive is not
    called, no masked prompt is shown, and the only value written to
    [str.secretkey] in the run is that string. *)
Theorem encrypted_key_stored_unchanged (c : Command) (w : World)
    w0 ev0 sec askToStore w1 ev1 :
  gather_bunkerURL c w = ("", w0, ev0) ->
  gather_sec c w0 = (inl (sec, askToStore), w1, ev1) ->
  HasPrefix sec "ncryptsec1" = true ->
  exists w' evs,
    gatherSecretKeyOrBunker c w = (Return None sec true None, w', evs)
    /\ evs = (ev0 ++ ev1 ++ [EvGit ["config"; "--local"; "str.secretkey"; sec]])%list
    /\ config w' = <["str.secretkey" := sec]> (config w0)
    /\ config w' !! "str.secretkey" = Some sec
    /\ stdin w' = stdin w1 /\ tty w' = tty w1
    /\ decryptCalls evs = []
    /\ Forall (fun ev => isMasked ev = false) evs
    /\ ~ askedToStore evs
    /\ (forall v, In (EvGit ["config"; "--local"; "str.secretkey"; v]) evs -> v = sec).
Proof.
  intros H0 H1 Hp.
  rewrite (gatherSecretKeyOrBunker_local _ _ _ _ H0), H1.
  rewrite (gather_key_encrypted _ _ _ _ Hp).
  destruct (gather_bunkerURL_spec _ _ _ _ _ H0) as (_ & _ & _ & _ & Hev0 & _).
  destruct (gather_sec_spec _ _ _ _ _ H1) as (Hc1 & _ & Hev1 & _).
  eexists _, _. split; [reflexivity|]. split; [reflexivity|]. cbn [config tty stdin].
  split; [rewrite Hc1; reflexivity|].
  split; [apply lookup_insert_eq|].
  split; [reflexivity|]. split; [reflexivity|].
  assert (Hall : forall ev,
             In ev (ev0 ++ ev1 ++ [EvGit ["config"; "--local"; "str.secretkey"; sec]])%list ->
             ev = EvGit ["config"; "--local"; "str.bunker"; ""]
             \/ ev = EvGit ["config"; "--local"; "str.secretkey"]
             \/ isPromptOf (askConfig secretPrompt) ev
             \/ ev = EvGit ["config"; "--local"; "str.secretkey"; sec]).
  { intros ev Hin. apply in_app_or in Hin as [Hin|Hin]; [left; auto|].
    apply in_app_or in Hin as [Hin|Hin].
    - destruct (Hev1 _ Hin); auto.
    - destruct Hin as [<-|[]]. auto. }
  split.
  { rewrite !decryptCalls_app. cbn. rewrite app_nil_r.
    assert (He0 : decryptCalls ev0 = []).
    { clear -Hev0. induction ev0 as [|ev l IH]; [reflexivity|].
      rewrite (Hev0 ev (or_introl eq_refl)). cbn. apply IH.
      intros ev' Hin. apply Hev0. right. exact Hin. }
    assert (He1 : decryptCalls ev1 = []).
    { clear -Hev1. induction ev1 as [|ev l IH]; [reflexivity|].
      destruct (Hev1 ev (or_introl eq_refl)) as [-> | [(e & ->) | [-> | (res & ->)]]];
        cbn; apply IH; intros ev' Hin; apply Hev1; right; exact Hin. }
    rewrite He0, He1. reflexivity. }
  split.
  { apply List.Forall_forall. intros ev Hin.
    destruct (Hall _ Hin) as [-> | [-> | [Hpr | ->]]]; try reflexivity.
    destruct (isPromptOf_masked _ _ Hpr) as [-> | ->]; reflexivity. }
  split.
  { intros (r & Hin).
    destruct (Hall _ Hin) as [Heq | [Heq | [Hpr | Heq]]]; try discriminate.
    destruct Hpr as [(e & Heq) | [Heq | (res & Heq)]]; discriminate. }
  intros v Hin.
  destruct (Hall _ Hin) as [Heq | [Heq | [Hpr | Heq]]]; try discriminate.
  - destruct Hpr as [(e & Heq) | [Heq | (res & Heq)]]; discriminate.
  - inversion Heq. reflexivity.
Qed.

Lemma confirm_prompt_events (msg : string) (w : World) b w' evs :
  confirm msg w = (b, w', evs) ->
  forall ev, In ev evs -> isPromptOf (askConfig (msg +:+ "(y/n) ")) ev.
Proof.
  unfold confirm, ask. run. intros H.
  destruct (_ask (askConfig (msg +:+ "(y/n) ")) (msg +:+ "(y/n) ") ""
              (Some confirmAnswer) false w) as [[[r res] w1] evs1] eqn:Ha.
  inversion H; subst; clear H. rewrite app_nil_r. intros ev Hin.
  destruct (_ask_events _ _ _ _ _ _ _ _ _ _ Ha ev Hin) as [Hn | [Hw | Hr]];
    unfold isPromptOf; auto.
Qed.

Lemma isYes_eq (a : string) : isYes a = true -> a = "y" \/ a = "yes".
Proof.
  unfold isYes. intros H. apply orb_true_iff in H as [H|H];
    apply String.eqb_eq in H; auto.
Qed.

Lemma confirm_true (w : World) w' evs :
  confirm storePrompt w = (true, w', evs) -> confirmed evs.
Proof.
  intros H. destruct (confirm_spec _ _ _ _ _ H) as (_ & _ & Hcase).
  destruct Hcase as [(e & _ & Hb & _) | (_ & _ & skipped & _ & Hend)];
    [discriminate|].
  destruct Hend as [(l & _ & _ & Hb & ->) | (e & _ & Hb & _)]; [|discriminate].
  exists l. split.
  - right. right. apply in_or_app. right. left. reflexivity.
  - apply isYes_eq. symmetry. exact Hb.
Qed.

(** Lines 91-96, by cases. *)
Lemma gather_store_spec (c : Command) (sec : string) (askToStore : bool)
    (w : World) o w' evs :
  gather_store c sec askToStore w = (o, w', evs) ->
  o = Return None sec false None
  /\ exists b evc,
       (askToStore = false -> b = false /\ evc = [])
       /\ (forall ev, In ev evc ->
             isPromptOf (askConfig (storePrompt +:+ "(y/n) ")) ev)
       /\ (b = true -> confirmed evc)
       /\ (if b || store_sec_flag c
           then evs = (evc ++ [EvGit ["config"; "--local"; "str.secretkey"; sec]])%list
                /\ config w' = <["str.secretkey" := sec]> (config w)
           else evs = evc /\ config w' = config w).
Proof.
  rewrite gather_store_eq.
  destruct askToStore.
  - destruct (confirm storePrompt w) as [[b w1] evc] eqn:Hc.
    destruct (confirm_spec _ _ _ _ _ Hc) as (Hcfg & _ & _).
    intros H. assert (o = Return None sec false None)
      by (destruct (b || store_sec_flag c); inversion H; reflexivity).
    split; [assumption|]. exists b, evc.
    split; [discriminate|].
    split; [eapply confirm_prompt_events; eauto|].
    split; [intros ->; eapply confirm_true; eauto|].
    destruct (b || store_sec_flag c); inversion H; subst; cbn [config];
      rewrite Hcfg; auto.
  - cbn [orb]. intros H.
    assert (o = Return None sec false None)
      by (destruct (store_sec_flag c); inversion H; reflexivity).
    split; [assumption|]. exists false, [].
    split; [auto|]. split; [intros ev []|]. split; [discriminate|].
    cbn [orb]. destruct (store_sec_flag c); inversion H; subst; cbn; auto.
Qed.

(** Lines 78-89: a string that is not an encrypted key either fails
    validation, or is a valid key (the decoded one for an nsec) that
    goes on to the decision to store. *)
Lemma gather_key_plain (c : Command) (sec : string) (askToStore : bool)
    (w : World) o w' evs :
  HasPrefix sec "ncryptsec1" = false ->
  gather_key c sec askToStore w = (o, w', evs) ->
  (exists e, o = Return None "" false (Some e) /\ w' = w /\ evs = [])
  \/ (o = Panic /\ w' = w /\ evs = [])
  \/ (exists key,
         IsValid32ByteHex key = true
         /\ gather_store c key askToStore w = (o, w', evs)).
Proof.
  unfold gather_key. intros ->. cbv zeta.
  destruct (HasPrefix sec "nsec1").
  - destruct (Decode sec) as [[p [hex|]]|e].
    + destruct (IsValid32ByteHex hex) eqn:Hv; cbn [negb].
      * intros H. right. right. exists hex. auto.
      * intros H. inversion H; subst. left. eauto.
    + intros H. inversion H; subst. right. left. auto.
    + intros H. inversion H; subst. left. eauto.
  - destruct (IsValid32ByteHex sec) eqn:Hv; cbn [negb].
    + intros H. right. right. exists sec. auto.
    + intros H. inversion H; subst. left. eauto.
Qed.

Lemma confirmed_app_r (e1 e2 : list Event) : confirmed e2 -> confirmed (e1 ++ e2)%list.
Proof. intros (l & Hin & Hy). exists l. split; [apply in_or_app; auto | exact Hy]. Qed.

Lemma confirmed_app_l (e1 e2 : list Event) : confirmed e1 -> confirmed (e1 ++ e2)%list.
Proof. intros (l & Hin & Hy). exists l. split; [apply in_or_app; auto | exact Hy]. Qed.

(** C1. In every run of the resolver that returns a plain key, the
    stored-secret setting is written only if the user was asked and
    answered yes, or the force-store flag is set; the user is asked
    only when the secret was typed at the prompt; and without consent
    or flag the value of [str.secretkey] in the configuration is what
    it was before the run. *)
Theorem plain_key_stored_only_with_consent (c : Command) (w : World) key w' evs :
  gatherSecretKeyOrBunker c w = (Return None key false None, w', evs) ->
  (storeCalled evs -> confirmed evs \/ store_sec_flag c = true)
  /\ (askedToStore evs -> gatheredInteractively evs)
  /\ (config w' !! "str.secretkey" <> config w !! "str.secretkey" ->
      confirmed evs \/ store_sec_flag c = true).
Proof.
  intros H.
  destruct (gather_bunkerURL c w) as [[url w0] ev0] eqn:H0.
  destruct (gather_bunkerURL_spec _ _ _ _ _ H0) as (_ & _ & Hrng & Hk0 & Hev0 & Hflag).
  destruct (isEmpty url) eqn:Hurl.
  - (* local key *)
    apply isEmpty_true in Hurl. subst url.
    rewrite (gatherSecretKeyOrBunker_local _ _ _ _ H0) in H.
    destruct (gather_sec c w0) as [[[[sec ats]|err] w1] ev1] eqn:H1;
      [|inversion H].
    destruct (gather_sec_spec _ _ _ _ _ H1) as (Hc1 & _ & Hev1 & _ & Hsrc).
    destruct (gather_key c sec ats w1) as [[o w2] ev2] eqn:H2.
    inversion H; subst; clear H.
    destruct (HasPrefix sec "ncryptsec1") eqn:Hp.
    { rewrite (gather_key_encrypted _ _ _ _ Hp) in H2. inversion H2. }
    destruct (gather_key_plain _ _ _ _ _ _ _ Hp H2)
      as [(e & Ho & _) | [(Ho & _) | (key' & Hv & Hst)]]; try discriminate.
    destruct (gather_store_spec _ _ _ _ _ _ _ Hst)
      as (Ho & b & evc & Hats & Hevc & Hb & Hres).
    inversion Ho; subst key'. clear Ho.
    assert (Hconsent : b || store_sec_flag c = true ->
                       confirmed (ev0 ++ ev1 ++ evc)%list \/ store_sec_flag c = true).
    { intros Hor. apply orb_true_iff in Hor as [Hbt|Hf]; [left|right; exact Hf].
      apply confirmed_app_r, confirmed_app_r. auto. }
    assert (Hnostore : ~ storeCalled (ev0 ++ ev1 ++ evc)%list).
    { intros (v & Hin). apply in_app_or in Hin as [Hin|Hin].
      { apply Hev0 in Hin. discriminate. }
      apply in_app_or in Hin as [Hin|Hin].
      - destruct (Hev1 _ Hin) as [Heq | [(e & Heq) | [Heq | (res & Heq)]]];
          discriminate.
      - destruct (Hevc _ Hin) as [(e & Heq) | [Heq | (res & Heq)]]; discriminate. }
    assert (Hasked : askedToStore (ev0 ++ ev1 ++ evc)%list ->
                     gatheredInteractively (ev0 ++ ev1 ++ evc)%list).
    { intros (r & Hin).
      destruct Hsrc as [(-> & _) | (skipped & line & _ & _ & Hline & _)].
      - exfalso. destruct (Hats eq_refl) as (_ & ->).
        apply in_app_or in Hin as [Hin|Hin].
        { apply Hev0 in Hin. discriminate. }
        apply in_app_or in Hin as [Hin|[]].
        destruct (Hev1 _ Hin) as [Heq | [(e & Heq) | [Heq | (res & Heq)]]];
          discriminate.
      - exists line. apply in_or_app. right. apply in_or_app. left. exact Hline. }
    destruct (b || store_sec_flag c) eqn:Hor; destruct Hres as (-> & Hcfg).
    + specialize (Hconsent eq_refl).
      assert (Hcons' : confirmed (ev0 ++ ev1 ++ evc
                          ++ [EvGit ["config"; "--local"; "str.secretkey"; key]])%list
                       \/ store_sec_flag c = true).
      { destruct Hconsent as [Hcf|Hf]; [left|right; exact Hf].
        rewrite !app_assoc. apply confirmed_app_l.
        rewrite <- !app_assoc. exact Hcf. }
      split; [auto|]. split; [|auto].
      intros (r & Hin).
      assert (Hin' : In (EvReadline (askConfig (storePrompt +:+ "(y/n) ")) r)
                       (ev0 ++ ev1 ++ evc)%list).
      { rewrite !app_assoc in Hin. apply in_app_or in Hin as [Hin|[Hin|[]]];
          [rewrite <- !app_assoc in Hin; exact Hin | discriminate]. }
      destruct (Hasked (ex_intro _ r Hin')) as (line & Hl).
      exists line. rewrite !app_assoc. apply in_or_app. left.
      rewrite <- !app_assoc. exact Hl.
    + split; [intros Hs; contradiction|]. split; [exact Hasked|].
      intros Hne. exfalso. apply Hne. rewrite Hcfg, Hc1. exact Hk0.
  - (* remote signer *)
    apply isEmpty_false in Hurl. destruct (Hflag Hurl) as (-> & -> & ->).
    unfold gatherSecretKeyOrBunker in H. unfold bind at 1 in H. rewrite H0 in H.
    apply isEmpty_false in Hurl. rewrite Hurl in H. cbn [negb] in H.
    rewrite gather_bunker_eq in H. cbv zeta in H.
    destruct (ConnectBunker (GeneratePrivateKey (rng w)) (connect_flag c))
      as [[h|] err]; inversion H; subst; clear H.
    cbn. split; [|split].
    + intros (v & Hin). exfalso.
      repeat (destruct Hin as [Hin|Hin]; [discriminate|]). exact Hin.
    + intros (r & Hin). exfalso.
      repeat (destruct Hin as [Hin|Hin]; [discriminate|]). exact Hin.
    + intros Hne. exfalso. apply Hne. reflexivity.
Qed.

Lemma HasPrefix_nsec1 (s : string) :
  HasPrefix s "nsec1" = true ->
  exists t, s = String "n" (String "s" (String "e" (String "c" (String "1" t)))).
Proof.
  unfold HasPrefix. intros H. apply String.prefix_correct in H.
  destruct s as [|c1 [|c2 [|c3 [|c4 [|c5 t]]]]]; cbn in H; try discriminate H.
  injection H; intros; subst c1 c2 c3 c4 c5. exists t. reflexivity.
Qed.


(** The type assertion of line 84 does not panic, given that the
    decoder returns a string for what starts with "nsec1". *)
Lemma gatherSecretKeyOrBunker_no_panic (c : Command) (w : World) :
  (forall s p, HasPrefix s "nsec1" = true -> Decode s <> inl (p, Nostr.AnyPointer)) ->
  fst (fst (gatherSecretKeyOrBunker c w)) <> Panic.
Proof.
  intros Hstring.
  destruct (gather_bunkerURL c w) as [[url w0] ev0] eqn:H0.
  destruct (isEmpty url) eqn:Hurl.
  - apply isEmpty_true in Hurl. subst url.
    rewrite (gatherSecretKeyOrBunker_local _ _ _ _ H0).
    destruct (gather_sec c w0) as [[[[sec ats]|err] w1] ev1]; [|discriminate].
    destruct (gather_key c sec ats w1) as [[o w2] ev2] eqn:H2. cbn.
    intros ->. revert H2. unfold gather_key.
    destruct (HasPrefix sec "ncryptsec1"); [discriminate|]. cbv zeta.
    destruct (HasPrefix sec "nsec1") eqn:Hn.
    + destruct (Decode sec) as [[p [hex|]]|e] eqn:Hd.
      * destruct (IsValid32ByteHex hex); cbn [negb]; [|discriminate].
        intros H. apply gather_store_spec in H as (H & _). discriminate.
      * exfalso. eapply Hstring; eauto.
      * discriminate.
    + destruct (IsValid32ByteHex sec); cbn [negb]; [|discriminate].
      intros H. apply gather_store_spec in H as (H & _). discriminate.
  - unfold gatherSecretKeyOrBunker. unfold bind at 1. rewrite H0, Hurl.
    cbn [negb]. rewrite gather_bunker_eq. cbv zeta.
    destruct (ConnectBunker _ url) as [bunker err]. discriminate.
Qed.

(** With nothing given by flag and nothing stored, the resolver goes to
    the prompt. *)
Lemma gather_prompts (c : Command) (w : World) :
  promptsForSecret c w ->
  exists w0 evg,
    terminalOpens w0 /\ stdin w0 = stdin w
    /\ (forall ev, In ev evg -> isTerminalEvent ev = false)
    /\ gatherSecretKeyOrBunker c w
       = let '(((a, err), askToStore), w1, eva) :=
           ask secretPrompt "" (Some secretAnswer) false w0 in
         if isEmpty a
         then (Return None "" false (Some (Errorf "couldn't gather secret key")),
               w1, (evg ++ eva)%list)
         else let '(o, w2, ev2) := gather_key c a askToStore w1 in
              (o, w2, (evg ++ eva ++ ev2)%list).
Proof.
  intros (Hconn & Hsec & Hstored & Ho).
  pose proof (gather_bunkerURL_eq c w) as H0. rewrite Hconn in H0. cbn [isEmpty] in H0.
  set (w0 := mkWorld (<["str.bunker" := ""]> (config w)) (tty w) (stdin w) (rng w)) in *.
  assert (Hst0 : storedSecret w0 = storedSecret w).
  { unfold storedSecret, w0. cbn [config].
    rewrite lookup_insert_ne by discriminate. reflexivity. }
  exists w0,
    (EvGit ["config"; "--local"; "str.bunker"; ""]
     :: if isEmpty (sec_flag c) && negb (sec_is_set c)
        then [EvGit ["config"; "--local"; "str.secretkey"]] else []).
  split; [exact Ho|]. split; [reflexivity|]. split.
  { intros ev [<-|Hin]; [reflexivity|].
    destruct (isEmpty (sec_flag c) && negb (sec_is_set c)); [|destruct Hin].
    destruct Hin as [<-|[]]. reflexivity. }
  rewrite (gatherSecretKeyOrBunker_local _ _ _ _ H0), gather_sec_eq.
  rewrite Hsec, Hst0. cbn [isEmpty andb].
  assert (Hsrc : (if negb (sec_is_set c)
                  then (storedSecret w, [EvGit ["config"; "--local"; "str.secretkey"]])
                  else ("", []))
                 = ("", if negb (sec_is_set c)
                        then [EvGit ["config"; "--local"; "str.secretkey"]] else [])).
  { destruct Hstored as [-> | ->]; [reflexivity|].
    destruct (negb (sec_is_set c)); reflexivity. }
  rewrite Hsrc. cbn [isEmpty].
  destruct (ask secretPrompt "" (Some secretAnswer) false w0)
    as [[[[a err] ats] w1] eva].
  destruct (isEmpty a); [reflexivity|].
  destruct (gather_key c a ats w1) as [[o w2] ev2].
  cbn [app]. rewrite <- app_assoc. reflexivity.
Qed.



(** C6 (as amended). A read that fails ends the read loop of the prompt
    engine at once: [_ask] returns the error of the read with an empty
    answer and reads nothing more, also after lines that were rejected.
    [promptDecrypt] hands that error on as it is.  The resolver does
    not: when the read fails at its secret prompt it drops the error
    and returns the error "couldn't gather secret key". *)
Theorem read_error_ends_prompt :
  (forall S cfg msg dflt (p : option (Pred S)) (st : S) w e rest,
      terminalOpens w ->
      stdin w = inr e :: rest ->
      _ask cfg msg dflt p st w
      = ((("", Some e), st), mkWorld (config w) (tail (tty w)) rest (rng w),
         [EvNewEx cfg None; EvWriteStdin dflt; EvReadline cfg (inr e)]))
  /\ (forall S cfg msg dflt (f : Pred S) (st st0 : S) w skipped e rest,
         terminalOpens w ->
         rejected f skipped st = Some st0 ->
         stdin w = (map inl skipped ++ inr e :: rest)%list ->
         _ask cfg msg dflt (Some f) st w
         = ((("", Some e), st0), mkWorld (config w) (tail (tty w)) rest (rng w),
            (EvNewEx cfg None :: EvWriteStdin dflt
             :: map (readOf cfg) skipped ++ [EvReadline cfg (inr e)])%list))
  /\ (forall nc w e rest,
         terminalOpens w ->
         stdin w = inr e :: rest ->
         exists w' evs,
           promptDecrypt nc w = (("", Some e), w', evs)
           /\ stdin w' = rest /\ decryptCalls evs = [])
  /\ (forall c w skipped e rest,
         promptsForSecret c w ->
         rejected secretAnswer skipped false = Some false ->
         stdin w = (map inl skipped ++ inr e :: rest)%list ->
         exists w' evs,
           gatherSecretKeyOrBunker c w
           = (Return None "" false (Some (Errorf "couldn't gather secret key")),
              w', evs)
           /\ stdin w' = rest).
Proof.
  split; [|split; [|split]].
  - intros S cfg msg dflt p st w e rest Ho Hin.
    rewrite (_ask_open _ _ _ _ _ _ Ho), Hin, readLoop_read_error. reflexivity.
  - intros S cfg msg dflt f st st0 w skipped e rest Ho Hrej Hin.
    rewrite (_ask_open _ _ _ _ _ _ Ho), Hin, (readLoop_skip _ _ _ _ _ _ Hrej).
    reflexivity.
  - intros nc w e rest Ho Hin. unfold promptDecrypt.
    cbn [seq promptDecryptLoop]. unfold bind at 1. unfold askPassword.
    rewrite (_ask_open _ _ _ _ _ _ Ho), Hin. cbn [readLoop].
    unfold ret. eexists _, _. split; [reflexivity|]. split; reflexivity.
  - intros c w skipped e rest Hprompt Hrej Hin.
    destruct (gather_prompts _ _ Hprompt) as (w0 & evg & Ho & Hs0 & _ & Hrun).
    unfold ask in Hrun.
    rewrite (_ask_open _ _ _ _ _ _ Ho), Hs0, Hin,
      (readLoop_skip _ _ _ _ _ _ Hrej) in Hrun.
    cbn [readLoop isEmpty] in Hrun.
    eexists _, _. split; [exact Hrun|]. reflexivity.
Qed.

End Resolver.

(** ** Decoding an nsec *)

Lemma hexDigit_ok (n : Z) :
  (0 <= n < 16)%Z ->
  Nostr.isHexDigit (Nostr.hexDigit n) = true
  /\ lowerByte (Nostr.hexDigit n) = Nostr.hexDigit n.
Proof.
  intros Hn.
  assert (Hcases : In n [0; 1; 2; 3; 4; 5; 6; 7; 8; 9; 10; 11; 12; 13; 14; 15]%Z).
  { cbn. lia. }
  cbn in Hcases.
  repeat (destruct Hcases as [<-|Hcases]; [split; reflexivity|]).
  destruct Hcases.
Qed.

Lemma land_255_range (x : Z) : (0 <= Z.land x 0xff < 256)%Z.
Proof.
  change 0xff%Z with (Z.ones 8). rewrite Z.land_ones by lia.
  apply Z.mod_pos_bound. reflexivity.
Qed.

Lemma convertLoop_bytes (data : list Z) :
  forall acc bits out,
    Nostr.convertLoop data acc bits = Some out ->
    Forall (fun b => (0 <= b < 256)%Z) out.
Proof.
  induction data as [|v data IH]; intros acc bits out; cbn [Nostr.convertLoop].
  - destruct (_ || _); intros H; inversion H. constructor.
  - cbv zeta. destruct (8 <=? bits + 5)%Z.
    + destruct (Nostr.convertLoop data _ _) as [out'|] eqn:E; intros H;
        inversion H; subst.
      constructor; [apply land_255_range | eapply IH; eauto].
    + apply IH.
Qed.

Lemma hexEncode_valid (data : list Z) :
  Forall (fun b => (0 <= b < 256)%Z) data ->
  Nostr.allHex (Nostr.hexEncode data) = true
  /\ lowerASCII (Nostr.hexEncode data) = Nostr.hexEncode data
  /\ String.length (Nostr.hexEncode data) = 2 * List.length data.
Proof.
  induction 1 as [|b data Hb _ (IH1 & IH2 & IH3)]; [repeat split|].
  assert (Hhi : (0 <= Z.shiftr b 4 < 16)%Z).
  { rewrite Z.shiftr_div_pow2 by lia. change (2 ^ 4)%Z with 16%Z.
    split; [apply Z.div_pos; lia | apply Z.div_lt_upper_bound; lia]. }
  assert (Hlo : (0 <= Z.land b 15 < 16)%Z).
  { change 15%Z with (Z.ones 4). rewrite Z.land_ones by lia.
    apply Z.mod_pos_bound. reflexivity. }
  destruct (hexDigit_ok _ Hhi) as (Hh1 & Hh2).
  destruct (hexDigit_ok _ Hlo) as (Hl1 & Hl2).
  cbn [Nostr.hexEncode Nostr.allHex lowerASCII String.length List.length].
  rewrite Hh1, Hl1, Hh2, Hl2, IH1, IH2, IH3. repeat split. lia.
Qed.

(** The string [nip19.Decode] returns for a key is a valid 32-byte
    hexadecimal string. *)
Lemma Decode_string_valid (s p hex : string) :
  Nostr.Decode s = inl (p, Nostr.AnyString hex) ->
  Nostr.IsValid32ByteHex hex = true.
Proof.
  unfold Nostr.Decode.
  destruct (Nostr.bech32Decode s) as [[prefix bits5]|e]; [|discriminate].
  unfold Nostr.ConvertBits5to8.
  destruct (Nostr.convertLoop bits5 0 0) as [data|] eqn:Hc; [|discriminate].
  destruct (Nostr.isKeyTag prefix).
  - destruct (List.length data <? 32)%nat eqn:Hlen; [discriminate|].
    intros H. inversion H; subst. apply Nat.ltb_ge in Hlen.
    assert (Hbytes : Forall (fun b => (0 <= b < 256)%Z) (firstn 32 data)).
    { apply Forall_take. eapply convertLoop_bytes; eauto. }
    destruct (hexEncode_valid _ Hbytes) as (H1 & H2 & H3).
    rewrite List.length_firstn, Nat.min_l in H3 by exact Hlen.
    unfold Nostr.IsValid32ByteHex. rewrite H1, H2, H3, String.eqb_refl.
    reflexivity.
  - destruct (Nostr.isTLVTag prefix); discriminate.
Qed.

(** A string that passes the first loop of the decoder has letters of
    one case only. *)
Lemma caseScan_inr (s : string) :
  forall lower upper upper',
    lower && upper = false ->
    Nostr.caseScan s lower upper = inr upper' ->
    upper' = upper || hasUpper s /\ (lower || hasLower s) && upper' = false.
Proof.
  induction s as [|c s IH]; intros lower upper upper' Hinv; cbn [Nostr.caseScan].
  - intros [= <-]. cbn [hasUpper hasLower]. rewrite !orb_false_r. auto.
  - cbv zeta. destruct (_ || _); [discriminate|].
    destruct ((lower || _) && (upper || _)) eqn:Hmix; [discriminate|].
    intros H. destruct (IH _ _ _ Hmix H) as [-> H2].
    cbn [hasUpper hasLower]. cbv zeta.
    rewrite ?orb_assoc. rewrite ?orb_assoc in H2. auto.
Qed.

Lemma splitLastOne_nsec1 (t h d : string) :
  Nostr.splitLastOne (String "n" (String "s" (String "e" (String "c" (String "1" t)))))
  = Some (h, d) ->
  exists h', h = String "n" (String "s" (String "e" (String "c" h'))).
Proof.
  cbn. destruct (Nostr.splitLastOne t) as [[h0 d0]|].
  - intros H. inversion H. exists (String "1" h0). reflexivity.
  - intros H. inversion H. exists "". reflexivity.
Qed.

(** For a string that starts with "nsec1" the decoded value, if any, is
    a string: the type assertion of line 84 cannot fail. *)
Lemma Decode_nsec1_not_pointer (s p : string) :
  HasPrefix s "nsec1" = true ->
  Nostr.Decode s <> inl (p, Nostr.AnyPointer).
Proof.
  intros Hp. apply HasPrefix_nsec1 in Hp as (t & ->).
  unfold Nostr.Decode, Nostr.bech32Decode.
  destruct (String.length _ <? 8)%nat; [discriminate|].
  set (s := String "n" (String "s" (String "e" (String "c" (String "1" t))))).
  destruct (Nostr.caseScan s false false) as [e|upper] eqn:Hscan; [discriminate|].
  assert (Hup : upper = false).
  { destruct (caseScan_inr s false false upper eq_refl Hscan) as [_ H].
    change (hasLower s) with true in H. exact H. }
  rewrite Hup.
  destruct (Nostr.splitLastOne s) as [[h d]|] eqn:Hs; [|discriminate].
  apply splitLastOne_nsec1 in Hs as (h' & ->).
  destruct (isEmpty _ || _); [discriminate|].
  destruct (Nostr.toBytes d) as [decoded|]; [|discriminate].
  destruct (Nostr.bech32VerifyChecksum _ decoded); [|discriminate].
  destruct (Nostr.ConvertBits5to8 _); [|discriminate].
  destruct (Nostr.isKeyTag _).
  - destruct (_ <? _)%nat; discriminate.
  - change (Nostr.isTLVTag (String "n" (String "s" (String "e" (String "c" h')))))
      with false. discriminate.
Qed.

(** With the decoder of module [Nostr] the resolver never panics. *)
Lemma gatherSecretKeyOrBunker_nostr_no_panic (ToLower : string -> string)
    (BunkerClient : Type)
    (ConnectBunker : string -> string -> option BunkerClient * option error)
    (GeneratePrivateKey : nat -> string) (c : Command) (w : World) :
  fst (fst (gatherSecretKeyOrBunker ToLower BunkerClient ConnectBunker GeneratePrivateKey
              Nostr.IsValid32ByteHex Nostr.Decode c w))
  <> Panic BunkerClient.
Proof.
  apply gatherSecretKeyOrBunker_no_panic.
  intros s p. apply Decode_nsec1_not_pointer.
Qed.

(** * The properties on concrete runs *)

Import Example.

Local Abbreviation validHex := Nostr.IsValid32ByteHex.
Local Abbreviation gather :=
  (gatherSecretKeyOrBunker lowerASCII nat connect keygen Nostr.IsValid32ByteHex Nostr.Decode).

(** ** Runs that meet the hypotheses *)

(** The user types a hexadecimal key and answers yes: the key is
    stored, with consent. *)
Lemma plain_key_stored_only_with_consent_witness :
  let r := gather noFlags (typing [inl hexkey; inl "yes"]) in
  r = (Return nat None hexkey false None, snd (fst r), snd r)
  /\ ((storeCalled (snd r) -> confirmed lowerASCII (snd r) \/ store_sec_flag noFlags = true)
      /\ (askedToStore (snd r) -> gatheredInteractively (snd r))
      /\ (config (snd (fst r)) !! "str.secretkey"
          <> config (typing [inl hexkey; inl "yes"]) !! "str.secretkey" ->
          confirmed lowerASCII (snd r) \/ store_sec_flag noFlags = true)).
Proof.
  cbv zeta. split; [vm_compute; reflexivity|].
  apply (plain_key_stored_only_with_consent lowerASCII nat connect keygen Nostr.IsValid32ByteHex Nostr.Decode noFlags
           (typing [inl hexkey; inl "yes"]) hexkey
           (snd (fst (gather noFlags (typing [inl hexkey; inl "yes"]))))
           (snd (gather noFlags (typing [inl hexkey; inl "yes"])))).
  vm_compute. reflexivity.
Defined.

(** Three wrong passphrases: the one error, after exactly three calls,
    and the fourth line is left unread.  A wrong passphrase and then
    the right one: the second prompt is marked [2/3] and the key is
    returned. *)
Lemma promptDecrypt_at_most_three_witness :
  let wrong := typing [inl "wrong"; inl "Hunter3"; inl "nope"; inl "hunter2"] in
  let right := typing [inl "wrong"; inl " Hunter2 "] in
  let gaveUp := ("", Some (Errorf "couldn't decrypt private key")) in
  let run := promptDecrypt lowerASCII decryptLower ncryptsec in
  run wrong
  = (gaveUp, typing [inl "hunter2"],
     attemptsTrace lowerASCII ncryptsec 1 ["wrong"; "Hunter3"; "nope"])
  /\ decryptCalls (snd (run wrong))
     = [(ncryptsec, "wrong"); (ncryptsec, "hunter3"); (ncryptsec, "nope")]
  /\ run right
     = ((hexkey, None), typing [],
        attemptsTrace lowerASCII ncryptsec 1 ["wrong"; " Hunter2 "])
  /\ In (EvNewEx (askPasswordConfig (passwordPrompt +:+ " [2/3]: ")) None)
       (snd (run right))
  /\ (exists failed,
         Forall (fun line =>
                   exists e, decryptLower ncryptsec (normalize lowerASCII line) = inr e)
           failed
         /\ loopEnds lowerASCII decryptLower ncryptsec 1 3 wrong failed gaveUp
              (typing [inl "hunter2"])
              (attemptsTrace lowerASCII ncryptsec 1 ["wrong"; "Hunter3"; "nope"]))
  /\ (exists failed,
         Forall (fun line =>
                   exists e, decryptLower ncryptsec (normalize lowerASCII line) = inr e)
           failed
         /\ loopEnds lowerASCII decryptLower ncryptsec 1 3 right failed
              (hexkey, None) (typing [])
              (attemptsTrace lowerASCII ncryptsec 1 ["wrong"; " Hunter2 "])).
Proof.
  cbv zeta.
  split; [vm_compute; reflexivity|]. split; [vm_compute; reflexivity|].
  split; [vm_compute; reflexivity|].
  split; [vm_compute; do 4 right; left; reflexivity|].
  split.
  - apply (proj1 (promptDecrypt_at_most_three lowerASCII decryptLower ncryptsec
                    (typing [inl "wrong"; inl "Hunter3"; inl "nope"; inl "hunter2"])
                    _ _ _ ltac:(vm_compute; reflexivity))).
  - apply (proj1 (promptDecrypt_at_most_three lowerASCII decryptLower ncryptsec
                    (typing [inl "wrong"; inl " Hunter2 "])
                    _ _ _ ltac:(vm_compute; reflexivity))).
Defined.


(** A passphrase typed with capitals comes back in lower case. *)
Lemma prompts_fold_case_witness :
  askPassword lowerASCII "password: " (@None (Pred unit)) tt (typing [inl " Secret "])
  = ((("secret", None), tt), typing [],
     [EvNewEx (askPasswordConfig "password: ") None; EvWriteStdin "";
      EvReadline (askPasswordConfig "password: ") (inl " Secret ")])
  /\ exists line,
       In (inl line) (stdin (typing [inl " Secret "]))
       /\ "secret" = TrimSpace (lowerASCII line)
       /\ ((forall s, hasUpper (lowerASCII s) = false) -> hasUpper "secret" = false).
Proof.
  split; [vm_compute; reflexivity|].
  apply (prompts_fold_case lowerASCII "password: " "" (@None (Pred unit)) tt
           (typing [inl " Secret "]) "secret" tt (typing [])
           [EvNewEx (askPasswordConfig "password: ") None; EvWriteStdin "";
            EvReadline (askPasswordConfig "password: ") (inl " Secret ")]).
  right. vm_compute. reflexivity.
Defined.

(** A yes/no question answered "maybe", then " YES ". *)
Lemma ask_stops_on_accept_or_error_witness :
  _ask lowerASCII (askConfig "ok? ") "ok? " "" (Some confirmAnswer) false
    (typing [inl "maybe"; inl " YES "; inl "later"])
  = ((("yes", None), true), typing [inl "later"],
     [EvNewEx (askConfig "ok? ") None; EvWriteStdin "";
      EvReadline (askConfig "ok? ") (inl "maybe");
      EvReadline (askConfig "ok? ") (inl " YES ")])
  /\ exists skipped line st0,
       stdin (typing [inl "maybe"; inl " YES "; inl "later"])
       = (map inl skipped ++ inl line :: stdin (typing [inl "later"]))%list
       /\ rejected lowerASCII confirmAnswer skipped false = Some st0
       /\ "yes" = normalize lowerASCII line
       /\ confirmAnswer "yes" st0 = (false, true)
       /\ (forall p : string -> bool,
              (forall x s, fst (confirmAnswer x s) = p x) -> p "yes" = false).
Proof.
  split; [vm_compute; reflexivity|].
  apply (ask_stops_on_accept_or_error lowerASCII (askConfig "ok? ") "ok? " "" confirmAnswer
           false (typing [inl "maybe"; inl " YES "; inl "later"])
           "yes" None true (typing [inl "later"])
           [EvNewEx (askConfig "ok? ") None; EvWriteStdin "";
            EvReadline (askConfig "ok? ") (inl "maybe");
            EvReadline (askConfig "ok? ") (inl " YES ")]).
  vm_compute. reflexivity.
Defined.

(** The read at the secret prompt fails after a rejected lowerASCII line. *)
Lemma read_error_ends_prompt_witness :
  promptsForSecret noFlags (typing [inl "what"; inr ErrInterrupt; inl hexkey])
  /\ rejected lowerASCII (secretAnswer validHex) ["what"] false = Some false
  /\ exists w' evs,
       gather noFlags (typing [inl "what"; inr ErrInterrupt; inl hexkey])
       = (Return nat None "" false (Some (Errorf "couldn't gather secret key")),
          w', evs)
       /\ stdin w' = [inl hexkey].
Proof.
  assert (Hp : promptsForSecret noFlags
                 (typing [inl "what"; inr ErrInterrupt; inl hexkey])).
  { repeat split. right. reflexivity. }
  split; [exact Hp|]. split; [vm_compute; reflexivity|].
  apply (proj2 (proj2 (proj2 (read_error_ends_prompt lowerASCII nat connect keygen decrypt
                               Nostr.IsValid32ByteHex Nostr.Decode)))
           noFlags (typing [inl "what"; inr ErrInterrupt; inl hexkey])
           ["what"] ErrInterrupt [inl hexkey] Hp).
  - vm_compute. reflexivity.
  - reflexivity.
Defined.

(** The connect flag names a signer that answers. *)
Lemma bunker_path_taken_witness :
  gather_bunkerURL (mkCommand bunkerURL "" false false) emptyWorld
  = (bunkerURL, emptyWorld, [])
  /\ bunkerURL <> ""
  /\ connect (keygen (rng emptyWorld)) bunkerURL = (Some 1, None)
  /\ exists w' evs,
       gather (mkCommand bunkerURL "" false false) emptyWorld
       = (Return nat (Some 1) "" false None, w', evs)
       /\ evs = ([] ++ [EvGeneratePrivateKey (keygen (rng emptyWorld));
                        EvConnectBunker (keygen (rng emptyWorld)) bunkerURL]
                 ++ [EvGit ["config"; "--local"; "str.bunker"; bunkerURL]])%list
       /\ (forall h, Some 1 = Some h -> config w' !! "str.bunker" = Some bunkerURL)
       /\ (Some 1 = @None nat -> config w' = config emptyWorld)
       /\ List.length (filter isConnect evs) = 1
       /\ stdin w' = stdin emptyWorld /\ tty w' = tty emptyWorld
       /\ Forall (fun ev => isTerminalEvent ev = false
                            /\ touchesSetting "str.secretkey" ev = false) evs.
Proof.
  split; [reflexivity|]. split; [discriminate|]. split; [reflexivity|].
  apply (bunker_path_taken lowerASCII nat connect keygen Nostr.IsValid32ByteHex Nostr.Decode
           (mkCommand bunkerURL "" false false)
           emptyWorld bunkerURL emptyWorld [] (Some 1) None).
  - reflexivity.
  - discriminate.
  - reflexivity.
Defined.

(** An encrypted key given by flag. *)
Lemma encrypted_key_stored_unchanged_witness :
  let c := mkCommand "" ncryptsec true false in
  let w0 := mkWorld (<["str.bunker" := ""]> ∅) [] [] 0 in
  let ev0 := [EvGit ["config"; "--local"; "str.bunker"; ""]] in
  gather_bunkerURL c emptyWorld = ("", w0, ev0)
  /\ gather_sec lowerASCII validHex c w0 = (inl (ncryptsec, false), w0, [])
  /\ HasPrefix ncryptsec "ncryptsec1" = true
  /\ exists w' evs,
       gather c emptyWorld = (Return nat None ncryptsec true None, w', evs)
       /\ evs = (ev0 ++ [] ++ [EvGit ["config"; "--local"; "str.secretkey"; ncryptsec]])%list
       /\ config w' = <["str.secretkey" := ncryptsec]> (config w0)
       /\ config w' !! "str.secretkey" = Some ncryptsec
       /\ stdin w' = stdin w0 /\ tty w' = tty w0
       /\ decryptCalls evs = []
       /\ Forall (fun ev => isMasked ev = false) evs
       /\ ~ askedToStore evs
       /\ (forall v, In (EvGit ["config"; "--local"; "str.secretkey"; v]) evs ->
                     v = ncryptsec).
Proof.
  cbv zeta. split; [reflexivity|]. split; [vm_compute; reflexivity|].
  split; [vm_compute; reflexivity|].
  apply (encrypted_key_stored_unchanged lowerASCII nat connect keygen
           Nostr.IsValid32ByteHex Nostr.Decode
           (mkCommand "" ncryptsec true false) emptyWorld
           (mkWorld (<["str.bunker" := ""]> ∅) [] [] 0)
           [EvGit ["config"; "--local"; "str.bunker"; ""]]
           ncryptsec false
           (mkWorld (<["str.bunker" := ""]> ∅) [] [] 0) []).
  - reflexivity.
  - vm_compute. reflexivity.
  - vm_compute. reflexivity.
Defined.

(** A wrong passphrase, then ^C at the second prompt. *)
Lemma promptDecrypt_read_error_witness :
  let r := promptDecrypt lowerASCII decryptLower ncryptsec (typing [inl "wrong"; inr ErrInterrupt]) in
  let ev := EvReadline (askPasswordConfig (passwordPrompt +:+ " [2/3]" +:+ ": "))
              (inr ErrInterrupt) in
  r = (fst (fst r), snd (fst r), snd r)
  /\ In ev (snd r)
  /\ readError ev = Some ErrInterrupt
  /\ fst (fst r) = ("", Some ErrInterrupt)
  /\ (exists pre,
         snd r = (pre ++ [ev])%list
         /\ decryptCalls pre = decryptCalls (snd r)
         /\ Forall (fun ev' => readError ev' = None) pre)
  /\ List.length (decryptCalls (snd r)) = List.length (linesRead (snd r))
  /\ List.length (decryptCalls (snd r)) < 3
  /\ Forall (failing decryptLower) (decryptCalls (snd r)).
Proof.
  cbv zeta. split; [vm_compute; reflexivity|].
  assert (Hin : In (EvReadline (askPasswordConfig (passwordPrompt +:+ " [2/3]" +:+ ": "))
                      (inr ErrInterrupt))
                  (snd (promptDecrypt lowerASCII decryptLower ncryptsec
                          (typing [inl "wrong"; inr ErrInterrupt])))).
  { vm_compute. do 6 right. left. reflexivity. }
  split; [exact Hin|]. split; [reflexivity|].
  apply (promptDecrypt_read_error lowerASCII decryptLower ncryptsec
           (typing [inl "wrong"; inr ErrInterrupt]) _ _ _ eq_refl _ _ Hin).
  reflexivity.
Defined.

(** The question is answered "maybe", then " YES ". *)
Lemma confirm_yes_no_or_false_witness :
  let w := typing [inl "maybe"; inl " YES "] in
  let r := confirm lowerASCII storePrompt w in
  r = (true, snd (fst r), snd r)
  /\ (true = true <->
      terminalOpens w /\
      exists skipped line rest,
        stdin w = (map inl skipped ++ inl line :: rest)%list
        /\ Forall (fun l => isYesNo (normalize lowerASCII l) = false) skipped
        /\ isYes (normalize lowerASCII line) = true).
Proof.
  cbv zeta. split; [vm_compute; reflexivity|].
  apply (proj1 (confirm_yes_no_or_false lowerASCII nat) storePrompt
           (typing [inl "maybe"; inl " YES "]) true
           (snd (fst (confirm lowerASCII storePrompt (typing [inl "maybe"; inl " YES "]))))
           (snd (confirm lowerASCII storePrompt (typing [inl "maybe"; inl " YES "])))).
  vm_compute. reflexivity.
Defined.

(** ** Runs that contradict the specification *)


(** C4, as stated, fails: the masked prompt returns "Secret" in lower
    case. *)
Lemma masked_prompt_counterexample :
  let r := askPassword lowerASCII "password: " (@None (Pred unit)) tt (typing [inl "Secret"]) in
  fst (fst (fst r)) = ("secret", None)
  /\ hasUpper "Secret" = true
  /\ hasUpper (fst (fst (fst (fst r)))) = false
  /\ fst (fst (fst (fst r))) <> "Secret".
Proof.
  cbv zeta. split; [vm_compute; reflexivity|]. split; [reflexivity|].
  split; [vm_compute; reflexivity|]. vm_compute. discriminate.
Qed.

(** C6, as stated, fails: ^C at the secret prompt makes the resolver
    return "couldn't gather secret key", not the interrupt. *)
Lemma interrupted_secret_prompt_counterexample :
  let r := gather noFlags (typing [inr ErrInterrupt]) in
  fst (fst r)
  = Return nat None "" false (Some (Errorf "couldn't gather secret key"))
  /\ fst (fst r) <> Return nat None "" false (Some ErrInterrupt).
Proof.
  cbv zeta. split; [vm_compute; reflexivity|]. vm_compute. discriminate.
Qed.

(** ** Two more runs *)

(** A passphrase with a capital letter cannot decrypt: the primitive
    gets it in lower case on each of the three attempts. *)
Example capital_passphrase_never_decrypts :
  let r := promptDecrypt lowerASCII decrypt ncryptsec
             (typing [inl "Secret"; inl "Secret"; inl "Secret"]) in
  fst (fst r) = ("", Some (Errorf "couldn't decrypt private key"))
  /\ decryptCalls (snd r)
     = [(ncryptsec, "secret"); (ncryptsec, "secret"); (ncryptsec, "secret")].
Proof. cbv zeta. split; vm_compute; reflexivity. Qed.

(** White space is trimmed as [strings.TrimSpace] trims it: the runes
    of [unicode.IsSpace], not only the ASCII ones, and no byte that
    decodes to no rune. *)
Example TrimSpace_unicode :
  TrimSpace (" yes" +:+ nbsp +:+ " ") = "yes"
  /\ TrimSpace (nbsp +:+ "a" +:+ nbsp) = "a"
  /\ TrimSpace (emSpace +:+ "a b" +:+ String "010" "") = "a b"
  /\ TrimSpace (zwsp +:+ "a") = zwsp +:+ "a"
  /\ TrimSpace ("a" +:+ String "160" " ") = "a" +:+ String "160" ""
  /\ TrimSpace ("a" +:+ String "194" " ") = "a" +:+ String "194" "".
Proof. repeat split; vm_compute; reflexivity. Qed.

(** An nsec followed by a no-break space is trimmed before it is
    decoded: the key is returned. *)
Example nsec_nbsp_is_decoded :
  fst (fst (gather noFlags (typing [inl (nsec +:+ nbsp); inl "n"])))
  = Return nat None hexkey false None.
Proof. vm_compute. reflexivity. Qed.

(** A yes followed by a no-break space is a yes: the key is stored. *)
Example yes_nbsp_is_yes :
  let r := gather noFlags (typing [inl hexkey; inl ("yes" +:+ nbsp); inl "n"]) in
  fst (fst (confirm lowerASCII storePrompt (typing [inl ("yes" +:+ nbsp); inl "n"])))
  = true
  /\ fst (fst r) = Return nat None hexkey false None
  /\ config (snd (fst r)) !! "str.secretkey" = Some hexkey
  /\ stdin (snd (fst r)) = [inl "n"].
Proof. cbv zeta. repeat split; vm_compute; reflexivity. Qed.

(** C7. The code at the failing input: a signer address was stored by
    an earlier, successful connection and the signer would answer, no
    connect flag is given and a key is typed.  Line 37 hands the empty
    address to git as a value to store: the stored address is erased,
    the signer is never called and the resolver goes on to the local
    key. *)
Example stored_bunker_address_is_blanked :
  let w := mkWorld {["str.bunker" := bunkerURL]} [] [inl hexkey; inl "n"] 0 in
  let r := gather noFlags w in
  config w !! "str.bunker" = Some bunkerURL
  /\ connect (keygen (rng w)) bunkerURL = (Some 1, None)
  /\ fst (fst r) = Return nat None hexkey false None
  /\ config (snd (fst r)) !! "str.bunker" = Some ""
  /\ filter isConnect (snd r) = [].
Proof. cbv zeta. repeat split; vm_compute; reflexivity. Qed.

(** * The other helpers *)

(** ** [strings.Split] *)

Lemma Split_not_nil (s : string) (sep : ascii) : Split s sep <> [].
Proof.
  destruct s as [|c s]; cbn [Split]; [discriminate|].
  destruct (Ascii.eqb c sep); [discriminate|].
  destruct (Split s sep); discriminate.
Qed.

Lemma Split_cons_other (c sep : ascii) (s : string) :
  Ascii.eqb c sep = false ->
  exists piece pieces,
    Split s sep = piece :: pieces
    /\ Split (String c s) sep = String c piece :: pieces.
Proof.
  intros H. cbn [Split]. rewrite H.
  destruct (Split s sep) as [|piece pieces] eqn:E.
  - exfalso. eapply Split_not_nil; eauto.
  - eauto.
Qed.

(** One piece more than there are separators. *)
Lemma Split_length (s : string) (sep : ascii) :
  List.length (Split s sep) = S (countByte sep s).
Proof.
  induction s as [|c s IH]; [reflexivity|].
  cbn [countByte]. destruct (Ascii.eqb c sep) eqn:E.
  - cbn [Split]. rewrite E. cbn [List.length]. rewrite IH. reflexivity.
  - destruct (Split_cons_other _ _ s E) as (piece & pieces & H1 & H2).
    rewrite H2. rewrite H1 in IH. exact IH.
Qed.

(** No piece holds the separator. *)
Lemma Split_pieces (s : string) (sep : ascii) :
  Forall (fun piece => countByte sep piece = 0) (Split s sep).
Proof.
  induction s as [|c s IH]; [repeat constructor|].
  destruct (Ascii.eqb c sep) eqn:E.
  - cbn [Split]. rewrite E. constructor; [reflexivity | exact IH].
  - destruct (Split_cons_other _ _ s E) as (piece & pieces & H1 & H2).
    rewrite H2. rewrite H1 in IH. inversion IH; subst.
    constructor; [|assumption]. cbn [countByte]. rewrite E. assumption.
Qed.

Lemma Split_none (s : string) (sep : ascii) :
  countByte sep s = 0 -> Split s sep = [s].
Proof.
  induction s as [|c s IH]; [reflexivity|].
  cbn [countByte]. destruct (Ascii.eqb c sep) eqn:E; [discriminate|].
  cbn [Nat.add]. intros H. cbn [Split]. rewrite E, (IH H). reflexivity.
Qed.

Lemma Split_app (a b : string) (sep : ascii) :
  countByte sep a = 0 ->
  Split (a +:+ String sep b) sep = a :: Split b sep.
Proof.
  induction a as [|c a IH].
  - intros _. change ("" +:+ String sep b) with (String sep b).
    cbn [Split]. rewrite Ascii.eqb_refl. reflexivity.
  - cbn [countByte]. destruct (Ascii.eqb c sep) eqn:E; [discriminate|].
    cbn [Nat.add]. intros H.
    change (String c a +:+ String sep b) with (String c (a +:+ String sep b)).
    cbn [Split]. rewrite E, (IH H). reflexivity.
Qed.

Lemma Split_prefix (a b p : string) (ps : list string) (sep : ascii) :
  countByte sep a = 0 ->
  Split b sep = p :: ps ->
  Split (a +:+ b) sep = (a +:+ p) :: ps.
Proof.
  induction a as [|c a IH]; intros Ha Hb.
  - exact Hb.
  - cbn [countByte] in Ha. destruct (Ascii.eqb c sep) eqn:E; [discriminate|].
    cbn [Nat.add] in Ha.
    change (String c a +:+ b) with (String c (a +:+ b)).
    cbn [Split]. rewrite E, (IH Ha Hb). reflexivity.
Qed.

Lemma noByte_count (sep : ascii) (s : string) :
  noByte (fun c => Ascii.eqb c sep) s = true <-> countByte sep s = 0.
Proof.
  induction s as [|c s IH]; [split; reflexivity|].
  cbn [noByte countByte]. destruct (Ascii.eqb c sep); cbn.
  - split; discriminate.
  - exact IH.
Qed.

(** A byte that is absent from [s] is absent from its pieces. *)
Lemma Split_noByte (p : ascii -> bool) (s : string) (sep : ascii) :
  noByte p s = true ->
  Forall (fun piece => noByte p piece = true) (Split s sep).
Proof.
  induction s as [|c s IH]; intros H; [repeat constructor|].
  cbn [noByte] in H. apply andb_true_iff in H as [Hc Hs]. specialize (IH Hs).
  destruct (Ascii.eqb c sep) eqn:E.
  - cbn [Split]. rewrite E. constructor; [reflexivity | exact IH].
  - destruct (Split_cons_other _ _ s E) as (piece & pieces & H1 & H2).
    rewrite H2. rewrite H1 in IH. inversion IH; subst.
    constructor; [|assumption]. cbn [noByte]. rewrite Hc. assumption.
Qed.

Lemma noByte_app (p : ascii -> bool) (a b : string) :
  noByte p (a +:+ b) = noByte p a && noByte p b.
Proof.
  induction a as [|c a IH]; [reflexivity|].
  change (String c a +:+ b) with (String c (a +:+ b)).
  cbn [noByte]. rewrite IH, andb_assoc. reflexivity.
Qed.

(** Trimming adds no byte. *)
Lemma noByte_TrimSpace (p : ascii -> bool) (s : string) :
  noByte p s = true -> noByte p (TrimSpace s) = true.
Proof.
  destruct (TrimSpace_parts s) as (pre & suf & H). intros Hs.
  rewrite H, !noByte_app in Hs.
  apply andb_true_iff in Hs as [_ Hs]. apply andb_true_iff in Hs as [Hs _].
  exact Hs.
Qed.

Lemma noByte_separator (s : string) :
  noByte (fun c => Ascii.eqb c " ") s = true ->
  noByte (fun c => Ascii.eqb c ",") s = true ->
  noByte isSeparator s = true.
Proof.
  induction s as [|c s IH]; [reflexivity|]. cbn [noByte]. intros H1 H2.
  apply andb_true_iff in H1 as [H1 H1']. apply andb_true_iff in H2 as [H2 H2'].
  apply negb_true_iff in H1, H2. unfold isSeparator at 1. rewrite H1, H2.
  cbn. auto.
Qed.

Lemma noByte_separator_inv (s : string) :
  noByte isSeparator s = true ->
  countByte " " s = 0 /\ countByte "," s = 0.
Proof.
  induction s as [|c s IH]; [split; reflexivity|]. cbn [noByte countByte].
  intros H. apply andb_true_iff in H as [Hc Hs].
  apply negb_true_iff in Hc. unfold isSeparator in Hc.
  apply orb_false_elim in Hc as [-> ->]. exact (IH Hs).
Qed.

(** ** Loops that append *)

Lemma fold_append_filter {A B} (g : A -> B) (p : B -> bool) (l : list A) :
  forall acc,
    fold_left (fun res x => if p (g x) then (res ++ [g x])%list else res) l acc
    = (acc ++ List.filter p (map g l))%list.
Proof.
  induction l as [|x l IH]; intros acc; cbn [fold_left map List.filter].
  - rewrite app_nil_r. reflexivity.
  - rewrite IH. destruct (p (g x)); [|reflexivity].
    rewrite <- app_assoc. reflexivity.
Qed.

Lemma fold_append_flat {A B} (f : A -> list B) (step : list B -> A -> list B)
    (l : list A) :
  (forall acc x, step acc x = (acc ++ f x)%list) ->
  forall acc, fold_left step l acc = (acc ++ flat_map f l)%list.
Proof.
  intros Hstep. induction l as [|x l IH]; intros acc; cbn [fold_left flat_map].
  - rewrite app_nil_r. reflexivity.
  - rewrite IH, Hstep, <- app_assoc. reflexivity.
Qed.

(** ** [split] *)

(** The words one piece between spaces gives. *)
Lemma split_eq (str : string) :
  split str
  = flat_map
      (fun v =>
         List.filter (fun w => negb (isEmpty w)) (map TrimSpace (Split v ",")))
      (Split str " ").
Proof.
  unfold split.
  rewrite (fold_append_flat
             (fun v => List.filter (fun w => negb (isEmpty w))
                         (map TrimSpace (Split v ",")))).
  - reflexivity.
  - intros acc x. apply (fold_append_filter TrimSpace (fun w => negb (isEmpty w))).
Qed.

(** X3. Whatever the input, every element [split] returns is a word:
    it is not empty, holds no space and no comma, and has no white space
    at its ends. *)
Theorem split_gives_words (str : string) : Forall isWord (split str).
Proof.
  rewrite split_eq. apply List.Forall_forall. intros w Hw.
  apply in_flat_map in Hw as (piece & Hpiece & Hw).
  apply List.filter_In in Hw as [Hw Hne].
  apply in_map_iff in Hw as (v & <- & Hv).
  pose proof (Split_pieces str " ") as Hsp.
  rewrite List.Forall_forall in Hsp. specialize (Hsp _ Hpiece).
  apply noByte_count in Hsp.
  pose proof (Split_noByte _ piece "," Hsp) as Hv1.
  rewrite List.Forall_forall in Hv1. specialize (Hv1 _ Hv).
  pose proof (Split_pieces piece ",") as Hv2.
  rewrite List.Forall_forall in Hv2. specialize (Hv2 _ Hv).
  apply noByte_count in Hv2.
  split; [|split].
  - intros E. rewrite E in Hne. discriminate.
  - apply noByte_TrimSpace, noByte_separator; assumption.
  - apply TrimSpace_idem.
Qed.

Lemma split_skip (c : ascii) (s : string) :
  isSeparator c = true -> split (String c s) = split s.
Proof.
  intros Hc. rewrite !split_eq. unfold isSeparator in Hc.
  apply orb_true_iff in Hc as [Hc|Hc]; apply Ascii.eqb_eq in Hc; subst c.
  - cbn [Split]. rewrite Ascii.eqb_refl. reflexivity.
  - destruct (Split_cons_other "," " " s eq_refl) as (p & ps & H1 & H2).
    rewrite H1, H2. cbn [flat_map Split]. rewrite Ascii.eqb_refl. reflexivity.
Qed.

Lemma split_word_sep (w : string) (c : ascii) (s : string) :
  isWord w -> isSeparator c = true -> split (w +:+ String c s) = w :: split s.
Proof.
  intros (Hne & Hsep & Htrim) Hc. rewrite !split_eq.
  destruct (noByte_separator_inv _ Hsep) as [Hsp Hco].
  assert (Hw : List.filter (fun w => negb (isEmpty w)) (map TrimSpace [w]) = [w]).
  { cbn. rewrite Htrim. destruct w; [congruence | reflexivity]. }
  unfold isSeparator in Hc.
  apply orb_true_iff in Hc as [Hc|Hc]; apply Ascii.eqb_eq in Hc; subst c.
  - rewrite (Split_app _ _ _ Hsp). cbn [flat_map].
    rewrite (Split_none _ _ Hco), Hw. reflexivity.
  - destruct (Split_cons_other "," " " s eq_refl) as (p & ps & H1 & H2).
    rewrite (Split_prefix _ _ _ _ _ Hsp H2), H1. cbn [flat_map].
    rewrite (Split_app _ _ _ Hco). cbn [map List.filter].
    rewrite Htrim. destruct w; [congruence | reflexivity].
Qed.

Lemma split_word (w : string) : isWord w -> split w = [w].
Proof.
  intros (Hne & Hsep & Htrim). rewrite split_eq.
  destruct (noByte_separator_inv _ Hsep) as [Hsp Hco].
  rewrite (Split_none _ _ Hsp). cbn [flat_map]. rewrite (Split_none _ _ Hco).
  cbn. rewrite Htrim. destruct w; [congruence | reflexivity].
Qed.

Lemma split_skip_all (sep s : string) :
  noByte (fun c => negb (isSeparator c)) sep = true ->
  split (sep +:+ s) = split s.
Proof.
  induction sep as [|c sep IH]; intros H; [reflexivity|].
  cbn [noByte] in H. apply andb_true_iff in H as [Hc Hs].
  rewrite negb_involutive in Hc.
  change (String c sep +:+ s) with (String c (sep +:+ s)).
  rewrite (split_skip _ _ Hc). auto.
Qed.

(** X4. [split] undoes a join: words joined by any non-empty separator
    made of spaces and commas are given back as they were, in order. *)
Theorem split_Join (words : list string) (sep : string) :
  Forall isWord words ->
  sep <> "" ->
  noByte (fun c => negb (isSeparator c)) sep = true ->
  split (Join words sep) = words.
Proof.
  intros Hwords Hne Hsep.
  destruct sep as [|c sep]; [congruence|].
  cbn [noByte] in Hsep. apply andb_true_iff in Hsep as [Hc Hsep].
  rewrite negb_involutive in Hc.
  induction Hwords as [|w rest Hw Hrest IH]; [reflexivity|].
  destruct rest as [|w2 rest].
  - apply split_word. exact Hw.
  - change (Join (w :: w2 :: rest) (String c sep))
      with (w +:+ String c (sep +:+ Join (w2 :: rest) (String c sep))).
    rewrite (split_word_sep _ _ _ Hw Hc), (split_skip_all _ _ Hsep), IH.
    reflexivity.
Qed.

(** ** Slices *)

Lemma firstn_length_app {V} (pre t : list V) :
  firstn (List.length pre) (pre ++ t) = pre.
Proof. induction pre as [|a pre IH]; cbn; [reflexivity | now rewrite IH]. Qed.

Lemma skipn_length_app {V} (pre t : list V) :
  skipn (List.length pre) (pre ++ t) = t.
Proof. induction pre as [|a pre IH]; cbn; [reflexivity | exact IH]. Qed.

Lemma nth_error_length_app {V} (pre : list V) (v : V) (t : list V) :
  nth_error (pre ++ v :: t) (List.length pre) = Some v.
Proof. induction pre as [|a pre IH]; cbn; [reflexivity | exact IH]. Qed.

Lemma firstn_whole {V} (l : list V) (n : nat) :
  List.length l <= n -> firstn n l = l.
Proof.
  revert n. induction l as [|a l IH]; intros [|n] H; cbn in *; try reflexivity.
  - lia.
  - rewrite IH; [reflexivity | lia].
Qed.

Lemma skipn_whole {V} (l : list V) (n : nat) :
  List.length l <= n -> skipn n l = [].
Proof.
  revert n. induction l as [|a l IH]; intros [|n] H; cbn in *; try reflexivity.
  - lia.
  - apply IH. lia.
Qed.

(** [copy(slice[i:], slice[i+1:])] moves the tail one place down and
    leaves the last element where it was. *)
Lemma copy_shift {V} (v : V) (t : list V) :
  exists x, copy (v :: t) t = (t ++ [x])%list.
Proof.
  unfold copy. rewrite (firstn_whole t); [|cbn; lia].
  assert (H : forall (t : list V) v, exists x, skipn (List.length t) (v :: t) = [x]).
  { clear. induction t as [|a t IH]; intros v; [exists v; reflexivity|].
    cbn [List.length]. rewrite skipn_cons. apply IH. }
  destruct (H t v) as [x Hx]. exists x. rewrite Hx. reflexivity.
Qed.

(** The loop of [filterSlice] when the indices of [pre] are left to
    visit: [kept] are the elements already kept, [junk] what the moves
    left behind them. *)
Lemma filterLoop_spec {V} (keep : V -> bool) (pre : list V) :
  forall kept junk,
  exists junk',
    filterLoop keep (List.length pre) (pre ++ kept ++ junk) (List.length kept)
    = Some ((List.filter keep pre ++ kept ++ junk')%list,
            List.length (List.filter keep pre ++ kept))
    /\ List.length (List.filter keep pre ++ kept ++ junk')
       = List.length (pre ++ kept ++ junk).
Proof.
  induction pre as [|v pre IH] using rev_ind; intros kept junk.
  - exists junk. split; reflexivity.
  - rewrite List.length_app, Nat.add_1_r. cbn [List.length filterLoop].
    rewrite <- app_assoc. cbn [app].
    rewrite nth_error_length_app, List.filter_app. cbn [List.filter].
    destruct (keep v) eqn:Hv.
    + destruct (IH (v :: kept) junk) as (junk' & H & Hlen).
      exists junk'. cbn [app List.length] in H, Hlen.
      rewrite H, <- !app_assoc. cbn [app].
      split; [|exact Hlen].
      rewrite !List.length_app. cbn [List.length]. reflexivity.
    + rewrite app_nil_r. unfold copyAt.
      rewrite firstn_length_app, skipn_length_app.
      replace (skipn (S (List.length pre)) (pre ++ v :: kept ++ junk))
        with (kept ++ junk)%list.
      2:{ change (v :: kept ++ junk)%list with ([v] ++ (kept ++ junk))%list.
          rewrite app_assoc.
          replace (S (List.length pre)) with (List.length (pre ++ [v]))
            by (rewrite List.length_app; cbn; lia).
          rewrite skipn_length_app. reflexivity. }
      destruct (copy_shift v (kept ++ junk)) as [x Hx]. rewrite Hx.
      destruct (IH kept (junk ++ [x])%list) as (junk' & H & Hlen).
      exists junk'. rewrite <- app_assoc, H. split; [reflexivity|].
      rewrite Hlen, !List.length_app. cbn [List.length].
      rewrite List.length_app. lia.
Qed.

(** X1. [filterSlice] never panics and returns the elements that [keep]
    accepts, in their order.  It does so in the array of its argument,
    which keeps its length and now starts with the result. *)
Theorem filterSlice_filter {V} (slice : list V) (keep : V -> bool) :
  exists junk,
    filterSlice slice keep
    = Some (List.filter keep slice, (List.filter keep slice ++ junk)%list)
    /\ List.length (List.filter keep slice ++ junk) = List.length slice.
Proof.
  destruct (filterLoop_spec keep slice [] []) as (junk & H & Hlen).
  cbn [app List.length] in H, Hlen.
  repeat rewrite app_nil_r in H. repeat rewrite app_nil_r in Hlen.
  exists junk. unfold filterSlice. rewrite H. split; [|exact Hlen].
  replace (List.length (List.filter keep slice)
           <=? List.length (List.filter keep slice ++ junk))%nat with true.
  - rewrite firstn_length_app. reflexivity.
  - symmetry. apply Nat.leb_le. rewrite List.length_app. lia.
Qed.

Lemma concat_size {V} (slices : list (list V)) :
  forall n,
    fold_left (fun size ss => size + List.length ss) slices n
    = n + List.length (concat slices).
Proof.
  induction slices as [|ss slices IH]; intros n; cbn [fold_left concat].
  - cbn. lia.
  - rewrite IH, List.length_app. lia.
Qed.

(** The second loop of [concatSlices]: [done] is the part of the new
    array already written, [rest] the part still holding zero values. *)
Lemma concat_fold {V} (slices : list (list V)) :
  forall done rest,
    List.length (concat slices) <= List.length rest ->
    fold_left
      (fun '(newSlice, pos) ss => (copyAt newSlice pos ss, pos + List.length ss))
      slices ((done ++ rest)%list, List.length done)
    = ((done ++ concat slices ++ skipn (List.length (concat slices)) rest)%list,
       List.length done + List.length (concat slices)).
Proof.
  induction slices as [|ss slices IH]; intros done rest Hlen.
  - cbn. rewrite Nat.add_0_r. reflexivity.
  - cbn [fold_left concat] in *. rewrite List.length_app in Hlen.
    unfold copyAt at 2. rewrite firstn_length_app, skipn_length_app.
    unfold copy. rewrite (firstn_whole ss) by lia.
    rewrite app_assoc.
    replace (List.length done + List.length ss)
      with (List.length (done ++ ss)) by apply List.length_app.
    rewrite IH.
    + rewrite List.skipn_skipn, !List.length_app, <- !app_assoc.
      rewrite (Nat.add_comm (List.length (concat slices)) (List.length ss)), Nat.add_assoc.
      reflexivity.
    + rewrite List.length_skipn. lia.
Qed.

(** X2. [concatSlices] returns the elements of its arguments one slice
    after the other: nothing of the zero-filled array it starts from is
    left in the result. *)
Theorem concatSlices_concat {V} (zero : V) (slices : list (list V)) :
  concatSlices zero slices = concat slices.
Proof.
  unfold concatSlices. rewrite concat_size. cbn [Nat.add].
  pose proof (concat_fold slices [] (repeat zero (List.length (concat slices)))) as H.
  cbn [app List.length] in H. rewrite H by (rewrite repeat_length; lia).
  cbn [fst]. rewrite skipn_whole by (rewrite repeat_length; lia).
  apply app_nil_r.
Qed.

(** ** [git] and the settings read through it *)

(** X7. Whatever git prints, the output [git] hands to its caller has
    no white space at its ends: trimming it again changes nothing. *)
Theorem git_output_trimmed (args : list string) (w : World) :
  TrimSpace (fst (fst (fst (git args w)))) = fst (fst (fst (git args w))).
Proof.
  unfold git, bind, ret, emit. cbn [fst snd].
  destruct (gitProgram args w) as [[[v err] w'] evs].
  cbn [fst]. apply TrimSpace_idem.
Qed.

Lemma git_get_relays (w : World) :
  git ["config"; "str.patches-relay"] w
  = match config w !! "str.patches-relay" with
    | Some v => ((TrimSpace v, None), w, [EvGit ["config"; "str.patches-relay"]])
    | None => (("", Some gitError), w, [EvGit ["config"; "str.patches-relay"]])
    end.
Proof.
  unfold git, gitProgram, bind, ret, emit. cbn [fst snd].
  destruct (config w !! "str.patches-relay"); reflexivity.
Qed.

Lemma getRepositoryID_eq (w : World) :
  getRepositoryID w
  = (match config w !! "str.id" with Some v => TrimSpace v | None => "" end,
     w, [EvGit ["config"; "--local"; "str.id"]]).
Proof.
  unfold getRepositoryID, bind. rewrite git_get.
  destruct (config w !! "str.id"); reflexivity.
Qed.

Lemma filter_nonEmpty (l : list string) :
  Forall (fun u => u <> "") l ->
  List.filter (fun u => negb (isEmpty u)) l = l.
Proof.
  induction 1 as [|u l Hu _ IH]; [reflexivity|].
  cbn [List.filter]. destruct u; [congruence|]. cbn. rewrite IH. reflexivity.
Qed.

(** The relays are the non-empty pieces of the stored line. *)
Lemma getPatchRelays_eq (w : World) :
  getPatchRelays w
  = (List.filter (fun u => negb (isEmpty u))
       (Split match config w !! "str.patches-relay" with
              | Some v => TrimSpace v
              | None => ""
              end " "),
     w, [EvGit ["config"; "str.patches-relay"]]).
Proof.
  unfold getPatchRelays. unfold bind at 1.
  rewrite git_get_relays.
  pose proof (fun l => fold_append_filter (fun u : string => u)
                         (fun u => negb (isEmpty u)) l []) as H.
  cbn beta in H. cbn [app] in H.
  destruct (config w !! "str.patches-relay"); unfold ret; cbv zeta;
    rewrite H, List.map_id; reflexivity.
Qed.

(** X5. Every relay [getPatchRelays] returns is a non-empty string
    without a space, the repository is left as it was, and with no
    relay configured the list is empty. *)
Theorem getPatchRelays_urls (w : World) :
  Forall (fun url => url <> "" /\ countByte " " url = 0)
    (fst (fst (getPatchRelays w)))
  /\ snd (fst (getPatchRelays w)) = w
  /\ (config w !! "str.patches-relay" = None -> fst (fst (getPatchRelays w)) = []).
Proof.
  rewrite getPatchRelays_eq. cbn [fst snd]. split; [|split].
  - apply List.Forall_forall. intros u Hu.
    apply List.filter_In in Hu as [Hu Hne]. split.
    + intros E. rewrite E in Hne. discriminate.
    + pose proof (Split_pieces
                    match config w !! "str.patches-relay" with
                    | Some v => TrimSpace v
                    | None => ""
                    end " ") as H.
      rewrite List.Forall_forall in H. exact (H _ Hu).
  - reflexivity.
  - intros ->. reflexivity.
Qed.

Lemma hasSpace_cons (c : ascii) (s : string) :
  hasSpace (String c s) = false ->
  spaceRune (String c s) = None /\ hasSpace s = false.
Proof.
  cbn [hasSpace]. destruct (spaceRune (String c s)); [discriminate | auto].
Qed.

Lemma hasSpace_count (u : string) :
  hasSpace u = false -> countByte " " u = 0.
Proof.
  induction u as [|c u IH]; [reflexivity|]. intros H.
  apply hasSpace_cons in H as [Hc Hu]. cbn [countByte]. rewrite (IH Hu).
  destruct (Ascii.eqb_spec c " ") as [->|_]; [discriminate | reflexivity].
Qed.

(** The encodings of white space longer than one byte hold no space
    byte. *)
Lemma isSpace2_space (c : ascii) : isSpace2 c " " = false.
Proof.
  unfold isSpace2. change (nat_of_ascii " ") with 32.
  generalize (nat_of_ascii c). intros n. cbn [Nat.eqb orb].
  apply andb_false_r.
Qed.

Lemma isSpace3_space_2 (c1 c3 : ascii) : isSpace3 c1 " " c3 = false.
Proof.
  unfold isSpace3. change (nat_of_ascii " ") with 32.
  generalize (nat_of_ascii c1) (nat_of_ascii c3). intros n1 n3.
  cbn [Nat.eqb]. rewrite !andb_false_r. reflexivity.
Qed.

Lemma isSpace3_space_3 (c1 c2 : ascii) : isSpace3 c1 c2 " " = false.
Proof.
  unfold isSpace3. change (nat_of_ascii " ") with 32.
  generalize (nat_of_ascii c1) (nat_of_ascii c2). intros n1 n2.
  cbn [Nat.eqb Nat.leb orb andb]. rewrite !andb_false_r. reflexivity.
Qed.

(** A string that starts with no white space still does when a space
    and more follow it. *)
Lemma spaceRune_before_space (a b : string) :
  a <> "" -> spaceRune a = None -> spaceRune (a +:+ String " " b) = None.
Proof.
  intros Hne. destruct a as [|c1 [|c2 [|c3 t]]]; [congruence| | |]; simpl.
  - destruct (asciiSpace c1); [discriminate|]. intros _.
    rewrite isSpace2_space. destruct b; [reflexivity|].
    rewrite isSpace3_space_2. reflexivity.
  - destruct (asciiSpace c1); [discriminate|].
    destruct (isSpace2 c1 c2); [discriminate|]. intros _.
    rewrite isSpace3_space_3. reflexivity.
  - destruct (asciiSpace c1); [discriminate|].
    destruct (isSpace2 c1 c2); [discriminate|].
    destruct (isSpace3 c1 c2 c3); [discriminate | reflexivity].
Qed.

(** Nothing is trimmed from a piece without white space that ends the
    string or is followed by a space. *)
Lemma trimRight_clean (a t : string) :
  hasSpace a = false ->
  t = "" \/ (exists b, t = String " " b) ->
  trimRight (a +:+ t) = a +:+ trimRight t.
Proof.
  intros Ha Ht. induction a as [|c a IH]; [reflexivity|].
  apply hasSpace_cons in Ha as [Hc Ha].
  change (String c a +:+ t) with (String c (a +:+ t)).
  rewrite trimRight_unfold, (IH Ha).
  assert (Hstart : spaceRune (String c (a +:+ t)) = None).
  { destruct Ht as [->|[b ->]].
    - rewrite append_nil_r. exact Hc.
    - apply (spaceRune_before_space (String c a) b); [discriminate | exact Hc]. }
  apply trimLeft_fixed in Hstart. rewrite Hstart. reflexivity.
Qed.

(** Urls joined by single spaces: the line starts and ends with a byte
    of a url. *)
Lemma Join_urls_trimmed (urls : list string) :
  Forall (fun url => url <> "" /\ hasSpace url = false) urls ->
  TrimSpace (Join urls " ") = Join urls " ".
Proof.
  intros H.
  enough (Hj : urls <> [] ->
               Join urls " " <> ""
               /\ spaceRune (Join urls " ") = None
               /\ trimRight (Join urls " ") = Join urls " ").
  { destruct urls as [|u urls]; [reflexivity|].
    destruct Hj as (_ & Hl & Hr); [discriminate|].
    unfold TrimSpace. apply trimLeft_fixed in Hl. rewrite Hl. exact Hr. }
  induction H as [|u rest [Hne Hu] Hrest IH]; [congruence|]. intros _.
  assert (Hstart : spaceRune u = None).
  { destruct u as [|c r]; [reflexivity|]. apply (hasSpace_cons _ _ Hu). }
  destruct rest as [|u2 rest].
  - cbn [Join]. split; [exact Hne|]. split; [exact Hstart|].
    rewrite <- (append_nil_r u) at 1. rewrite (trimRight_clean u "" Hu); [|auto].
    apply append_nil_r.
  - destruct IH as (Hne2 & Hl2 & Hr2); [discriminate|].
    change (Join (u :: u2 :: rest) " ")
      with (u +:+ String " " (Join (u2 :: rest) " ")).
    split; [|split].
    + destruct u; [congruence | discriminate].
    + apply spaceRune_before_space; assumption.
    + rewrite (trimRight_clean u _ Hu); [|eauto]. f_equal.
      rewrite trimRight_unfold, Hr2.
      assert (Hleft : trimLeft (String " " (Join (u2 :: rest) " "))
                      = Join (u2 :: rest) " ").
      { rewrite trimLeft_unfold. cbn [spaceRune].
        change (asciiSpace " ") with true. cbn iota.
        apply trimLeft_fixed, Hl2. }
      rewrite Hleft.
      destruct (Join (u2 :: rest) " "); [congruence | reflexivity].
Qed.

Lemma Split_of_Join (words : list string) (sep : ascii) :
  Forall (fun w => countByte sep w = 0) words ->
  words <> [] ->
  Split (Join words (String sep "")) sep = words.
Proof.
  induction 1 as [|w rest Hw Hrest IH]; [congruence|]. intros _.
  destruct rest as [|w2 rest].
  - apply Split_none. exact Hw.
  - change (Join (w :: w2 :: rest) (String sep ""))
      with (w +:+ String sep (Join (w2 :: rest) (String sep ""))).
    rewrite (Split_app _ _ _ Hw), IH; [reflexivity | discriminate].
Qed.

(** X6. Relays stored as one line, separated by single spaces, are read
    back as they were, in order: this holds for every list of non-empty
    urls that hold no white space, ASCII or other. *)
Theorem getPatchRelays_Join (urls : list string) (w : World) :
  Forall (fun url => url <> "" /\ hasSpace url = false) urls ->
  config w !! "str.patches-relay" = Some (Join urls " ") ->
  getPatchRelays w = (urls, w, [EvGit ["config"; "str.patches-relay"]]).
Proof.
  intros Hurls Hcfg. rewrite getPatchRelays_eq, Hcfg, (Join_urls_trimmed _ Hurls).
  destruct urls as [|u urls]; [reflexivity|].
  rewrite Split_of_Join; [|
    eapply List.Forall_impl; [|exact Hurls];
    intros a [_ Ha]; apply hasSpace_count, Ha | discriminate].
  rewrite filter_nonEmpty; [reflexivity|].
  eapply List.Forall_impl; [|exact Hurls]. intros a [Ha _]. exact Ha.
Qed.

(** ** Printing a patch *)

(** What [Tags.GetFirst] finds for the prefix [a], [""] is a tag whose
    first element is [a] and that has a second element. *)
Lemma GetFirst_a (tags : list (list string)) (tag : list string) :
  NostrTags.GetFirst tags ["a"; ""] = Some tag ->
  exists value rest, tag = "a" :: value :: rest.
Proof.
  induction tags as [|v tags IH]; [discriminate|].
  cbn [NostrTags.GetFirst].
  destruct (NostrTags.startsWith v ["a"; ""]) eqn:E; [|exact IH].
  intros [= <-]. destruct v as [|t [|value rest]]; [discriminate| |].
  - cbn in E. rewrite andb_false_r in E. discriminate.
  - cbn [NostrTags.startsWith] in E. apply andb_true_iff in E as [E _].
    apply String.eqb_eq in E as <-. eauto.
Qed.

(** X9. With the search of go-nostr, [sprintPatch] panics exactly when
    the first tag of the event that starts with [a] and has a second
    element holds fewer than two colons in that element; an event
    without such a tag, and so one whose only [a] tag has no second
    element, is always printed. *)
Theorem sprintPatch_panics (EncodePublicKey : string -> string * option error)
    (patch : nostr_Event) :
  sprintPatch EncodePublicKey NostrTags.GetFirst patch = None
  <-> exists value rest,
        NostrTags.GetFirst (ev_Tags patch) ["a"; ""] = Some ("a" :: value :: rest)
        /\ countByte ":" value < 2.
Proof.
  unfold sprintPatch. destruct (EncodePublicKey (ev_PubKey patch)) as [npub e].
  destruct (NostrTags.GetFirst (ev_Tags patch) ["a"; ""]) as [aTag|] eqn:Hfirst.
  - destruct (GetFirst_a _ _ Hfirst) as (v & rest & ->). cbn [nth_error].
    pose proof (Split_length v ":") as Hlen.
    destruct (Split v ":") as [|p0 [|p1 [|p2 ps]]]; cbn [nth_error List.length] in *.
    + discriminate.
    + split; [intros _; exists v, rest; split; [reflexivity | lia] | reflexivity].
    + split; [intros _; exists v, rest; split; [reflexivity | lia] | reflexivity].
    + destruct (EncodePublicKey p1) as [targetNpub e1].
      split; [discriminate|]. intros (v' & rest' & E & H).
      injection E as <- <-. lia.
  - split; [discriminate|]. intros (v & rest & E & _). discriminate.
Qed.

(** ** [edit] *)

(** X11. When the editor command succeeds and leaves the temporary file
    as it found it, [edit] returns the initial text, and the command it
    ran was the value of EDITOR (or vim when that is empty) followed by
    the name of the file. *)
Theorem edit_untouched
    (sh : string -> gmap string string -> gmap string string * option error)
    (initial : string) (os : OS) (name : string) (fs' : gmap string string) :
  createTemp os = inl name ->
  writeFails os = None ->
  sh ((if isEmpty (EDITOR os) then "vim" else EDITOR os) +:+ " " +:+ name)
     (<[name := initial]> (files os)) = (fs', None) ->
  fs' !! name = Some initial ->
  edit sh initial os = ((initial, None), withFiles os (delete name fs')).
Proof.
  intros Hname Hwrite Hsh Hfile. unfold edit. rewrite Hname, Hwrite.
  rewrite insert_insert_eq.
  destruct (isEmpty (EDITOR os)); cbn [negb]; rewrite Hsh, Hfile; reflexivity.
Qed.

(** ** What [promptDecrypt] sends to the decrypt primitive *)



(** ** The resolver from start to end *)

Lemma isPromptOf_not_connect (cfg : Config) (ev : Event) :
  isPromptOf cfg ev -> isConnect ev = false.
Proof. intros [(e & ->) | [-> | (res & ->)]]; reflexivity. Qed.

Section ResolverRuns.

Variable ToLower : string -> string.
Variable BunkerClient : Type.
Variable ConnectBunker : string -> string -> option BunkerClient * option error.
Variable GeneratePrivateKey : nat -> string.
Variable IsValid32ByteHex : string -> bool.
Variable Decode : string -> (string * Nostr.any) + error.

Local Abbreviation resolve :=
  (gatherSecretKeyOrBunker ToLower BunkerClient ConnectBunker GeneratePrivateKey
     IsValid32ByteHex Decode).

(** Lines 75-96: what the second half of the resolver can return. *)
Lemma gather_key_spec (c : Command) (sec : string) (askToStore : bool)
    (w : World) o w' evs :
  gather_key ToLower BunkerClient IsValid32ByteHex Decode c sec askToStore w = (o, w', evs) ->
  config w' !! "str.bunker" = config w !! "str.bunker"
  /\ Forall (fun ev => isConnect ev = false) evs
  /\ forall bunker key encrypted err,
       o = Return BunkerClient bunker key encrypted err ->
       bunker = None
       /\ (encrypted = true -> HasPrefix key "ncryptsec1" = true /\ err = None)
       /\ (encrypted = false -> err = None -> IsValid32ByteHex key = true)
       /\ (err <> None -> key = "").
Proof.
  intros H. destruct (HasPrefix sec "ncryptsec1") eqn:He.
  - rewrite (gather_key_encrypted _ _ _ _ _ _ _ _ He) in H.
    inversion H; subst; clear H. cbn [config].
    split; [apply lookup_insert_ne; discriminate|].
    split; [repeat constructor|].
    intros b k e r Ho. inversion Ho; subst.
    split; [reflexivity|]. split; [auto|]. split; [discriminate | congruence].
  - destruct (gather_key_plain _ _ _ _ _ _ _ _ _ _ _ He H)
      as [(e & -> & -> & ->) | [(-> & -> & ->) | (key & Hv & Hs)]].
    + split; [reflexivity|]. split; [constructor|].
      intros b k e' r Ho. inversion Ho; subst.
      split; [reflexivity|]. split; [discriminate|]. split; [discriminate | reflexivity].
    + split; [reflexivity|]. split; [constructor|]. discriminate.
    + destruct (gather_store_spec _ _ _ _ _ _ _ _ _ Hs)
        as (-> & b & evc & _ & Hevc & _ & Hif).
      assert (Hprompts : Forall (fun ev => isConnect ev = false) evc).
      { apply List.Forall_forall. intros ev Hin.
        eapply isPromptOf_not_connect, Hevc, Hin. }
      split; [|split].
      * destruct (b || store_sec_flag c); destruct Hif as [_ ->];
          [apply lookup_insert_ne; discriminate | reflexivity].
      * destruct (b || store_sec_flag c); destruct Hif as [-> _]; [|exact Hprompts].
        apply Forall_app. split; [exact Hprompts | repeat constructor].
      * intros b' k e r Ho. inversion Ho; subst.
        split; [reflexivity|]. split; [discriminate|]. split; [auto | congruence].
Qed.

(** The run of the resolver when no address is given by flag. *)
Lemma gather_local_spec (c : Command) (w : World) o w' evs :
  connect_flag c = "" ->
  resolve c w = (o, w', evs) ->
  config w' !! "str.bunker" = Some ""
  /\ Forall (fun ev => isConnect ev = false) evs
  /\ forall bunker key encrypted err,
       o = Return BunkerClient bunker key encrypted err ->
       bunker = None
       /\ (encrypted = true -> HasPrefix key "ncryptsec1" = true /\ err = None)
       /\ (encrypted = false -> err = None -> IsValid32ByteHex key = true)
       /\ (err <> None -> key = "").
Proof.
  intros Hc H. pose proof (gather_bunkerURL_eq c w) as H0.
  rewrite Hc in H0. cbn [isEmpty] in H0.
  rewrite (gatherSecretKeyOrBunker_local _ _ _ _ _ _ _ _ _ _ H0) in H.
  set (w0 := mkWorld (<["str.bunker" := ""]> (config w)) (tty w) (stdin w) (rng w)) in *.
  destruct (gather_sec ToLower IsValid32ByteHex c w0) as [[r w1] ev1] eqn:Hs.
  destruct (gather_sec_spec _ _ _ _ _ _ _ Hs) as (Hcfg & _ & Hev & _).
  assert (Hev1 : Forall (fun ev => isConnect ev = false) ev1).
  { apply List.Forall_forall. intros ev Hin.
    destruct (Hev _ Hin) as [-> | Hp]; [reflexivity|].
    eapply isPromptOf_not_connect, Hp. }
  assert (Hb : config w1 !! "str.bunker" = Some "").
  { rewrite Hcfg. unfold w0. cbn [config]. apply lookup_insert_eq. }
  destruct r as [[sec ats]|err].
  - destruct (gather_key ToLower BunkerClient IsValid32ByteHex Decode c sec ats w1)
      as [[o2 w2] ev2] eqn:Hk.
    inversion H; subst; clear H.
    destruct (gather_key_spec _ _ _ _ _ _ _ Hk) as (Hb2 & Hev2 & Hres).
    split; [rewrite Hb2; exact Hb|]. split; [|exact Hres].
    constructor; [reflexivity|]. apply Forall_app. split; assumption.
  - inversion H; subst; clear H.
    split; [exact Hb|]. split.
    + constructor; [reflexivity | exact Hev1].
    + intros b k e r Ho. inversion Ho; subst.
      split; [reflexivity|]. split; [discriminate|]. split; [discriminate | reflexivity].
Qed.

(** X13. Without the connect flag the remote signer is never called,
    no handle is returned, and the run leaves [str.bunker] set to the
    empty string: line 37 hands the empty address to git as the value
    to store, so an address stored by an earlier run is erased. *)
Theorem no_connect_flag_erases_bunker (c : Command) (w : World) :
  connect_flag c = "" ->
  config (snd (fst (resolve c w))) !! "str.bunker" = Some ""
  /\ Forall (fun ev => isConnect ev = false) (snd (resolve c w))
  /\ forall bunker key encrypted err,
       fst (fst (resolve c w)) = Return BunkerClient bunker key encrypted err ->
       bunker = None.
Proof.
  intros Hc. destruct (resolve c w) as [[o w'] evs] eqn:H.
  destruct (gather_local_spec _ _ _ _ _ Hc H) as (Hb & Hev & Hres).
  cbn [fst snd]. split; [exact Hb|]. split; [exact Hev|].
  intros b k e r Ho. exact (proj1 (Hres _ _ _ _ Ho)).
Qed.

(** X14. What the resolver returns: a key flagged as encrypted starts
    with ncryptsec1; a key that is not empty comes without a signer
    handle and without an error, and when it is not flagged as
    encrypted it has passed the check of a 32-byte hexadecimal key. *)
Theorem resolver_result_kinds (c : Command) (w : World)
    bunker key encrypted err :
  fst (fst (resolve c w)) = Return BunkerClient bunker key encrypted err ->
  (encrypted = true -> HasPrefix key "ncryptsec1" = true)
  /\ (key <> "" ->
      bunker = None /\ err = None
      /\ (encrypted = false -> IsValid32ByteHex key = true)).
Proof.
  destruct (resolve c w) as [[o w'] evs] eqn:H. cbn [fst]. intros ->.
  destruct (isEmpty (connect_flag c)) eqn:E.
  - apply isEmpty_true in E.
    destruct (gather_local_spec _ _ _ _ _ E H) as (_ & _ & Hres).
    destruct (Hres _ _ _ _ eq_refl) as (-> & Henc & Hplain & Herr).
    split; [intros He; exact (proj1 (Henc He))|].
    intros Hkey. split; [reflexivity|].
    destruct err as [e|]; [exfalso; apply Hkey, Herr; discriminate|].
    split; [reflexivity|]. intros He. exact (Hplain He eq_refl).
  - unfold gatherSecretKeyOrBunker in H. unfold bind at 1 in H.
    rewrite gather_bunkerURL_eq, E in H. rewrite E in H. cbn [negb] in H.
    rewrite gather_bunker_eq in H. cbv zeta in H.
    destruct (ConnectBunker (GeneratePrivateKey (rng w)) (connect_flag c))
      as [b e].
    inversion H; subst. split; [discriminate | congruence].
Qed.


(** X16. A hexadecimal key found in [str.secretkey] is used as it is
    stored, less the white space around it: with no flag given the
    resolver returns it without opening the terminal, asks nothing and
    does not write it again. *)
Theorem stored_key_reused (c : Command) (w : World) (v : string) :
  connect_flag c = "" ->
  sec_flag c = "" ->
  sec_is_set c = false ->
  store_sec_flag c = false ->
  config w !! "str.secretkey" = Some v ->
  TrimSpace v <> "" ->
  HasPrefix (TrimSpace v) "ncryptsec1" = false ->
  HasPrefix (TrimSpace v) "nsec1" = false ->
  IsValid32ByteHex (TrimSpace v) = true ->
  resolve c w
  = (Return BunkerClient None (TrimSpace v) false None,
     mkWorld (<["str.bunker" := ""]> (config w)) (tty w) (stdin w) (rng w),
     [EvGit ["config"; "--local"; "str.bunker"; ""];
      EvGit ["config"; "--local"; "str.secretkey"]]).
Proof.
  intros Hc Hs Hset Hst Hcfg Hne He Hn Hv.
  pose proof (gather_bunkerURL_eq c w) as H0.
  rewrite Hc in H0. cbn [isEmpty] in H0.
  rewrite (gatherSecretKeyOrBunker_local _ _ _ _ _ _ _ _ _ _ H0).
  rewrite gather_sec_eq, Hs, Hset. cbn [isEmpty negb andb].
  unfold storedSecret. cbn [config].
  rewrite lookup_insert_ne by discriminate. rewrite Hcfg.
  apply isEmpty_false in Hne. rewrite Hne.
  unfold gather_key. rewrite He, Hn. cbv zeta. rewrite Hv. cbn [negb].
  rewrite gather_store_eq, Hst. reflexivity.
Qed.

End ResolverRuns.

(** ** Runs of the helpers that meet the hypotheses *)

(** Three words joined by a comma and a space. *)
Lemma split_Join_witness :
  Forall isWord ["origin/main"; "v1.0"; "HEAD"]
  /\ split (Join ["origin/main"; "v1.0"; "HEAD"] ", ")
     = ["origin/main"; "v1.0"; "HEAD"].
Proof.
  assert (H : Forall isWord ["origin/main"; "v1.0"; "HEAD"]).
  { repeat (constructor; [split; [discriminate | split; reflexivity]|]).
    constructor. }
  split; [exact H|].
  apply (split_Join ["origin/main"; "v1.0"; "HEAD"] ", " H);
    [discriminate | reflexivity].
Defined.

(** Two relays stored on one line. *)
Lemma getPatchRelays_Join_witness :
  let w := mkWorld {["str.patches-relay" := "wss://relay.damus.io wss://nos.lol"]}
             [] [] 0 in
  Forall (fun url => url <> "" /\ hasSpace url = false)
    ["wss://relay.damus.io"; "wss://nos.lol"]
  /\ config w !! "str.patches-relay"
     = Some (Join ["wss://relay.damus.io"; "wss://nos.lol"] " ")
  /\ getPatchRelays w
     = (["wss://relay.damus.io"; "wss://nos.lol"], w,
        [EvGit ["config"; "str.patches-relay"]]).
Proof.
  cbv zeta.
  assert (H : Forall (fun url => url <> "" /\ hasSpace url = false)
                ["wss://relay.damus.io"; "wss://nos.lol"]).
  { repeat (constructor; [split; [discriminate | vm_compute; reflexivity]|]).
    constructor. }
  split; [exact H|]. split; [vm_compute; reflexivity|].
  apply (getPatchRelays_Join ["wss://relay.damus.io"; "wss://nos.lol"] _ H).
  vm_compute. reflexivity.
Defined.

(** With EDITOR unset, vim is run; here it changes nothing. *)
Lemma edit_untouched_witness :
  let os := mkOS "" ∅ (inl "/tmp/go-editor1") None in
  let sh := fun (cmd : string) (fs : gmap string string) =>
              if String.eqb cmd "vim /tmp/go-editor1" then (fs, None)
              else (fs, Some (LibError "exit status 127")) in
  edit sh "draft" os
  = (("draft", None),
     withFiles os (delete "/tmp/go-editor1" (<["/tmp/go-editor1" := "draft"]> ∅))).
Proof.
  cbv zeta.
  apply (edit_untouched
           (fun (cmd : string) (fs : gmap string string) =>
              if String.eqb cmd "vim /tmp/go-editor1" then (fs, None)
              else (fs, Some (LibError "exit status 127")))
           "draft" (mkOS "" ∅ (inl "/tmp/go-editor1") None) "/tmp/go-editor1"
           (<["/tmp/go-editor1" := "draft"]> ∅)).
  - reflexivity.
  - reflexivity.
  - reflexivity.
  - vm_compute. reflexivity.
Defined.


(** A signer address is stored, no flag is given, a key is typed. *)
Lemma no_connect_flag_erases_bunker_witness :
  let w := mkWorld {["str.bunker" := bunkerURL]} [] [inl hexkey; inl "n"] 0 in
  connect_flag noFlags = ""
  /\ config w !! "str.bunker" = Some bunkerURL
  /\ config (snd (fst (gather noFlags w))) !! "str.bunker" = Some ""
  /\ Forall (fun ev => isConnect ev = false) (snd (gather noFlags w))
  /\ forall bunker key encrypted err,
       fst (fst (gather noFlags w)) = Return nat bunker key encrypted err ->
       bunker = None.
Proof.
  cbv zeta. split; [reflexivity|]. split; [vm_compute; reflexivity|].
  apply (no_connect_flag_erases_bunker lowerASCII nat connect keygen
           Nostr.IsValid32ByteHex Nostr.Decode noFlags
           (mkWorld {["str.bunker" := bunkerURL]} [] [inl hexkey; inl "n"] 0)).
  reflexivity.
Defined.

(** A typed nsec comes back as the hexadecimal key it encodes. *)
Lemma resolver_result_kinds_witness :
  fst (fst (gather noFlags (typing [inl nsec; inl "n"])))
  = Return nat None hexkey false None
  /\ (false = true -> HasPrefix hexkey "ncryptsec1" = true)
  /\ (hexkey <> "" ->
      @None nat = None /\ @None error = None
      /\ (false = false -> Nostr.IsValid32ByteHex hexkey = true)).
Proof.
  assert (H : fst (fst (gather noFlags (typing [inl nsec; inl "n"])))
              = Return nat None hexkey false None).
  { vm_compute. reflexivity. }
  split; [exact H|].
  exact (resolver_result_kinds lowerASCII nat connect keygen Nostr.IsValid32ByteHex
           Nostr.Decode noFlags (typing [inl nsec; inl "n"])
           None hexkey false None H).
Defined.


(** The key is stored with a line feed after it, as a file would hold
    it. *)
Lemma stored_key_reused_witness :
  let w := mkWorld {["str.secretkey" := hexkey +:+ nl]} [] [] 0 in
  config w !! "str.secretkey" = Some (hexkey +:+ nl)
  /\ TrimSpace (hexkey +:+ nl) = hexkey
  /\ Nostr.IsValid32ByteHex (TrimSpace (hexkey +:+ nl)) = true
  /\ gather noFlags w
     = (Return nat None (TrimSpace (hexkey +:+ nl)) false None,
        mkWorld (<["str.bunker" := ""]> (config w)) (tty w) (stdin w) (rng w),
        [EvGit ["config"; "--local"; "str.bunker"; ""];
         EvGit ["config"; "--local"; "str.secretkey"]]).
Proof.
  cbv zeta. split; [vm_compute; reflexivity|]. split; [vm_compute; reflexivity|].
  split; [vm_compute; reflexivity|].
  apply (stored_key_reused lowerASCII nat connect keygen Nostr.IsValid32ByteHex Nostr.Decode
           noFlags (mkWorld {["str.secretkey" := hexkey +:+ nl]} [] [] 0)
           (hexkey +:+ nl)).
  - reflexivity.
  - reflexivity.
  - reflexivity.
  - reflexivity.
  - vm_compute. reflexivity.
  - intros H. vm_compute in H. discriminate H.
  - vm_compute. reflexivity.
  - vm_compute. reflexivity.
  - vm_compute. reflexivity.
Defined.

(** ** Printing, with go-nostr's search for a tag *)

(** An [a] tag names the kind, the author and the id of the target
    repository; one that stops after the author makes [sprintPatch]
    panic, and an event without a [d] tag makes [sprintRepository]
    panic. *)
Example sprintPatch_on_tags :
  let encode := fun pk : string => ("npub1" +:+ pk, @None error) in
  let patch := fun tags => mkEvent "e1" "alice" "diff --git" tags in
  sprintPatch encode NostrTags.GetFirst (patch [["a"; "30617:bob:gitstr"]])
  = Some (nl +:+ "id: e1" +:+ nl +:+ "author: npub1alice"
          +:+ nl +:+ "target repo: gitstr" +:+ nl +:+ "target author: npub1bob"
          +:+ nl +:+ nl +:+ "diff --git")
  /\ sprintPatch encode NostrTags.GetFirst (patch [["t"; "root"]])
     = Some (nl +:+ "id: e1" +:+ nl +:+ "author: npub1alice"
             +:+ nl +:+ nl +:+ "diff --git")
  /\ sprintPatch encode NostrTags.GetFirst (patch [["a"; "30617:bob"]]) = None
  /\ sprintRepository encode NostrTags.GetFirst (patch [["d"; "gitstr"]])
     = Some (nl +:+ "author: npub1alice" +:+ nl +:+ "id: gitstr" +:+ nl)
  /\ sprintRepository encode NostrTags.GetFirst (patch [["t"; "root"]]) = None.
Proof. cbv zeta. repeat split; vm_compute; reflexivity. Qed.

(** With a check that accepts the 32-byte hexadecimal strings, only
    such a key is given out. *)
Example getRepositoryPublicKey_on_config :
  let valid := fun pk : string => Nostr.IsValid32ByteHex pk in
  fst (fst (getRepositoryPublicKey valid
              (mkWorld {["str.publickey" := hexkey +:+ nl]} [] [] 0))) = hexkey
  /\ fst (fst (getRepositoryPublicKey valid
                 (mkWorld {["str.publickey" := "npub1xyz"]} [] [] 0))) = ""
  /\ fst (fst (getRepositoryPublicKey valid emptyWorld)) = "".
Proof. cbv zeta. repeat split; vm_compute; reflexivity. Qed.
